(** * pychessexporter: the record parser and the report renderer

    A shallow embedding of [src/data_models.py] and [src/game_exporter.py],
    and the properties of the parser ([create_game_from_json]) and of the
    renderer ([to_console]) checked against it.

    Conventions of the embedding.
    - A Python [int] is a [Z]; [//] and [%] with a positive divisor are
      [Z.div] and [Z.modulo] (both round towards minus infinity).
      [str] of an [int], and an [int] in an f-string, is its decimal text:
      the limit CPython puts, from version 3.11 on, on the digits of an
      integer it prints is a setting of the interpreter and stays outside.
    - A float is not represented.  [value / 100] raises [OverflowError] on
      the integers whose quotient is beyond the floats, as in the source;
      the text made of the quotient is taken as given.
    - A Python [str] is the [string] of its UTF-8 bytes.  Operations that
      count characters ([len], slicing, padding) count the bytes that start
      a character; [upper], [lower] and [capitalize] change the case of the
      ASCII letters only.
    - A raised exception is a value of [exception]; code that may raise lives
      in the [result] monad, statements in the order the source runs them.
    - A raw record is a [json] tree: what the JSON reader of Python builds
      from a Lichess answer, numbers being integers.
    - A field of the typed model holds a value of the type its dataclass
      declares.  Python stores whatever the record carries; a record with
      another JSON type in such a field is outside the model, and the parser
      answers [NotModelled] for it. *)

From Stdlib Require Import ZArith String Ascii List Bool Lia DecimalString.
From stdpp Require Import base option list strings.

Open Scope Z_scope.
Open Scope string_scope.

(** ** Exceptions and the result monad *)

Inductive exception :=
  | KeyError (key : string)
  | IndexError
  | TypeError
  | AttributeError
  | ValueError
  | OverflowError
  | NotModelled.

Inductive result (A : Type) :=
  | Ok (a : A)
  | Raise (e : exception).
Arguments Ok {A} a.
Arguments Raise {A} e.

#[global] Instance result_ret : MRet result := fun A a => Ok a.
#[global] Instance result_bind : MBind result := fun A B f m =>
  match m with
  | Ok a => f a
  | Raise e => Raise e
  end.

Definition raises {A} (m : result A) : Prop := exists e, m = Raise e.

(** ** Python strings *)

Definition NL : string := String (ascii_of_nat 10) "".
Definition QUOTE : string := String (ascii_of_nat 34) "".
Definition BACKSLASH : string := String (ascii_of_nat 92) "".

(** [str(n)] for an [int]. *)
Definition str_of_Z (n : Z) : string := NilZero.string_of_int (Z.to_int n).

(** A byte that continues a UTF-8 character (10xxxxxx). *)
Definition is_continuation (c : ascii) : bool :=
  let n := N_of_ascii c in ((128 <=? n) && (n <? 192))%N.

(** [len(s)]: the number of characters. *)
Fixpoint py_len (s : string) : nat :=
  match s with
  | "" => 0%nat
  | String c s' => if is_continuation c then py_len s' else S (py_len s')
  end.

(** [s[:n]]: the first [n] characters. *)
Fixpoint py_take (n : nat) (s : string) : string :=
  match s with
  | "" => ""
  | String c s' =>
      if is_continuation c then String c (py_take n s')
      else match n with
           | O => ""
           | S n' => String c (py_take n' s')
           end
  end.

(** [' ' * n] *)
Fixpoint spaces (n : nat) : string :=
  match n with
  | O => ""
  | S n' => String " " (spaces n')
  end.

(** [f"{s:<w}"] and [f"{s:>w}"]: pad to width [w], never cut. *)
Definition ljust (w : nat) (s : string) : string := s +:+ spaces (w - py_len s).
Definition rjust (w : nat) (s : string) : string := spaces (w - py_len s) +:+ s.

Definition upper_char (c : ascii) : ascii :=
  let n := nat_of_ascii c in
  if ((97 <=? n) && (n <=? 122))%nat then ascii_of_nat (n - 32) else c.
Definition lower_char (c : ascii) : ascii :=
  let n := nat_of_ascii c in
  if ((65 <=? n) && (n <=? 90))%nat then ascii_of_nat (n + 32) else c.

Fixpoint map_string (f : ascii -> ascii) (s : string) : string :=
  match s with
  | "" => ""
  | String c s' => String (f c) (map_string f s')
  end.

(** [s.upper()], [s.lower()], [s.capitalize()] *)
Definition upper : string -> string := map_string upper_char.
Definition lower : string -> string := map_string lower_char.
Definition capitalize (s : string) : string :=
  match s with
  | "" => ""
  | String c s' => String (upper_char c) (lower s')
  end.

(** [s.startswith(p)] *)
Fixpoint startswith (p s : string) : bool :=
  match p, s with
  | "", _ => true
  | String a p', String b s' => if ascii_dec a b then startswith p' s' else false
  | String _ _, "" => false
  end.

(** [p in s] for strings: [p] occurs in [s] at some position. *)
Fixpoint contains (p s : string) : bool :=
  startswith p s ||
  match s with
  | "" => false
  | String _ s' => contains p s'
  end.

(** [s.split(sep)] for a separator of one character: never an empty list. *)
Fixpoint split (sep : ascii) (s : string) : list string :=
  match s with
  | "" => [""]
  | String c s' =>
      if ascii_dec c sep then "" :: split sep s'
      else match split sep s' with
           | w :: ws => String c w :: ws
           | [] => [String c ""]
           end
  end.

(** [sep.join(l)] *)
Fixpoint join (sep : string) (l : list string) : string :=
  match l with
  | [] => ""
  | [s] => s
  | s :: l' => s +:+ sep +:+ join sep l'
  end.

(** [s.replace(old, new)] for [old] of one character. *)
Fixpoint replace (old : ascii) (new : string) (s : string) : string :=
  match s with
  | "" => ""
  | String c s' =>
      (if ascii_dec c old then new else String c "") +:+ replace old new s'
  end.

Definition hex_digit (upper_case : bool) (n : N) : ascii :=
  if (n <? 10)%N then ascii_of_N (48 + n)
  else ascii_of_N ((if upper_case then 55 else 87) + n).

(** ** Raw records: JSON values and [json.dumps] *)

#[local] Unset Elimination Schemes.
Inductive json :=
  | JNull
  | JBool (b : bool)
  | JInt (n : Z)
  | JStr (s : string)
  | JList (l : list json)
  | JObj (o : list (string * json)).
#[local] Set Elimination Schemes.

(** [\uXXXX], four lower-case hexadecimal digits. *)
Definition u_escape (cp : N) : string :=
  BACKSLASH +:+ "u" +:+
  String (hex_digit false (N.shiftr cp 12 mod 16))
    (String (hex_digit false (N.shiftr cp 8 mod 16))
      (String (hex_digit false (N.shiftr cp 4 mod 16))
        (String (hex_digit false (cp mod 16)) ""))).

(** A character outside ASCII: one escape, or a surrogate pair above the
    basic plane. *)
Definition escape_code_point (cp : N) : string :=
  if (cp <? 65536)%N then u_escape cp
  else
    let v := (cp - 65536)%N in
    u_escape (N.lor 55296 (N.shiftr v 10)) +:+ u_escape (N.lor 56320 (N.land v 1023)).

(** One ASCII character inside a JSON string ([ESCAPE_ASCII] and [ESCAPE_DCT]
    of [json.encoder]): the printable ones stand for themselves, except the
    quote and the backslash. *)
Definition escape_ascii (c : ascii) : string :=
  let n := N_of_ascii c in
  if (n =? 34)%N then BACKSLASH +:+ QUOTE
  else if (n =? 92)%N then BACKSLASH +:+ BACKSLASH
  else if (n =? 10)%N then BACKSLASH +:+ "n"
  else if (n =? 13)%N then BACKSLASH +:+ "r"
  else if (n =? 9)%N then BACKSLASH +:+ "t"
  else if (n =? 12)%N then BACKSLASH +:+ "f"
  else if (n =? 8)%N then BACKSLASH +:+ "b"
  else if ((32 <=? n) && (n <=? 126))%N then String c ""
  else u_escape n.

Definition cont_bits (c : ascii) : N := N.land (N_of_ascii c) 63.

(** The inside of an encoded string ([ensure_ascii] is on by default): the
    UTF-8 bytes are read back into characters, each escaped on its own. *)
Fixpoint escape_string (s : string) : string :=
  match s with
  | "" => ""
  | String c s1 =>
      let n := N_of_ascii c in
      if (n <? 128)%N then escape_ascii c +:+ escape_string s1
      else if (n <? 224)%N then
        match s1 with
        | String c1 s2 =>
            escape_code_point (N.shiftl (N.land n 31) 6 + cont_bits c1)
            +:+ escape_string s2
        | "" => u_escape n
        end
      else if (n <? 240)%N then
        match s1 with
        | String c1 (String c2 s3) =>
            escape_code_point
              (N.shiftl (N.land n 15) 12 + N.shiftl (cont_bits c1) 6 + cont_bits c2)
            +:+ escape_string s3
        | _ => u_escape n +:+ escape_string s1
        end
      else
        match s1 with
        | String c1 (String c2 (String c3 s4)) =>
            escape_code_point
              (N.shiftl (N.land n 7) 18 + N.shiftl (cont_bits c1) 12
               + N.shiftl (cont_bits c2) 6 + cont_bits c3)
            +:+ escape_string s4
        | _ => u_escape n +:+ escape_string s1
        end
  end.

Definition encode_string (s : string) : string :=
  QUOTE +:+ escape_string s +:+ QUOTE.

(** [json.dumps(v)] with the default separators [", "] and [": "]. *)
Fixpoint json_dumps (v : json) : string :=
  match v with
  | JNull => "null"
  | JBool true => "true"
  | JBool false => "false"
  | JInt n => str_of_Z n
  | JStr s => encode_string s
  | JList l => "[" +:+ join ", " (map json_dumps l) +:+ "]"
  | JObj o =>
      "{" +:+
      join ", " (map (fun kv => encode_string kv.1 +:+ ": " +:+ json_dumps kv.2) o)
      +:+ "}"
  end.

(** *** Reading a raw record

    The operations the parser applies to the untyped record, each with the
    exception Python raises when the value has no such operation. *)

Fixpoint assoc (k : string) (o : list (string * json)) : option json :=
  match o with
  | [] => None
  | (k', v) :: o' => if String.eqb k k' then Some v else assoc k o'
  end.

(** [d[k]] for a key that is a string. *)
Definition getitem (d : json) (k : string) : result json :=
  match d with
  | JObj o => match assoc k o with
              | Some v => Ok v
              | None => Raise (KeyError k)
              end
  | _ => Raise TypeError
  end.

(** [d.get(k, default)]; [d.get(k)] is [get d k JNull]. *)
Definition get (d : json) (k : string) (default : json) : result json :=
  match d with
  | JObj o => Ok (match assoc k o with Some v => v | None => default end)
  | _ => Raise AttributeError
  end.

(** [s[n:]]: [s] without its first [n] characters. *)
Fixpoint py_drop (n : nat) (s : string) : string :=
  match s with
  | "" => ""
  | String c s' =>
      if is_continuation c then py_drop n s'
      else match n with
           | O => s
           | S n' => py_drop n' s'
           end
  end.

(** [l[i]] for an index [i >= 0]. *)
Definition getindex (l : json) (i : nat) : result json :=
  match l with
  | JList l => match l !! i with
               | Some v => Ok v
               | None => Raise IndexError
               end
  | JStr s => if (i <? py_len s)%nat then Ok (JStr (py_take 1 (py_drop i s)))
              else Raise IndexError
  | JObj _ => Raise (KeyError (str_of_Z (Z.of_nat i)))
  | _ => Raise TypeError
  end.

(** [len(v)] *)
Definition len (v : json) : result nat :=
  match v with
  | JList l => Ok (length l)
  | JStr s => Ok (py_len s)
  | JObj o => Ok (length o)
  | _ => Raise TypeError
  end.

(** [a - b]: defined on [int] (and on [bool], a subclass of it). *)
Definition as_number (v : json) : option Z :=
  match v with
  | JInt n => Some n
  | JBool b => Some (if b then 1 else 0)
  | _ => None
  end.
Definition sub (a b : json) : result json :=
  match as_number a, as_number b with
  | Some x, Some y => Ok (JInt (x - y))
  | _, _ => Raise TypeError
  end.

(** The truth value of [v] in a condition. *)
Definition truthy (v : json) : bool :=
  match v with
  | JNull => false
  | JBool b => b
  | JInt n => negb (n =? 0)%Z
  | JStr s => negb (String.eqb s "")
  | JList l => match l with [] => false | _ => true end
  | JObj o => match o with [] => false | _ => true end
  end.

(** [v.split(" ")]: only a [str] has the method. *)
Definition split_spaces (v : json) : result (list string) :=
  match v with
  | JStr s => Ok (split " " s)
  | _ => Raise AttributeError
  end.

(** [v == s] for a string literal [s]. *)
Definition eq_str (v : json) (s : string) : bool :=
  match v with
  | JStr s' => String.eqb s' s
  | _ => false
  end.

(** *** From a raw value to a typed field *)

Definition as_int (v : json) : result Z :=
  match v with JInt n => Ok n | _ => Raise NotModelled end.
Definition as_str (v : json) : result string :=
  match v with JStr s => Ok s | _ => Raise NotModelled end.
Definition as_bool (v : json) : result bool :=
  match v with JBool b => Ok b | _ => Raise NotModelled end.
Definition as_opt_int (v : json) : result (option Z) :=
  match v with JNull => Ok None | JInt n => Ok (Some n) | _ => Raise NotModelled end.
Definition as_opt_str (v : json) : result (option string) :=
  match v with JNull => Ok None | JStr s => Ok (Some s) | _ => Raise NotModelled end.

(** ** The typed model ([data_models.py]) *)

(** [x is not None] *)
Definition is_not_None {A} (x : option A) : bool :=
  match x with
  | Some _ => true
  | None => false
  end.

Inductive Color := WHITE | BLACK.

(** [color.value] *)
Definition value (c : Color) : string :=
  match c with
  | WHITE => "white"
  | BLACK => "black"
  end.

Module Clock.
Record t := make { initial : Z; increment : Z; total_time : Z }.
Definition default : t := make (-1) (-1) (-1).
End Clock.

(** The parser stores [None] for a boundary the record does not give. *)
Module Division.
Record t := make { middle : option Z; end_ : option Z }.
Definition default : t := make (Some (-1)) (Some (-1)).
End Division.

Module Opening.
Record t := make { eco : string; name : string; ply : Z }.
End Opening.

Module PlayerGameAnalysis.
Record t := make { inaccuracy : Z; mistake : Z; blunder : Z; acpl : Z }.
Definition default : t := make (-1) (-1) (-1) (-1).
End PlayerGameAnalysis.

Module User.
Record t := make { name : string; id : string }.
End User.

Module Player.
Record t := make {
  color : Color;
  user : User.t;
  rating : Z;
  rating_diff : Z;
  analysis : PlayerGameAnalysis.t
}.
End Player.

Module Judgment.
Record t := make { name : option string; comment : option string }.
End Judgment.

Module MoveAnalysis.
Record t := make {
  eval : option Z;
  mate : option Z;
  best : option string;
  variation : option string;
  judgement : option Judgment.t
}.
Definition default : t := make None None None None None.

(** [__bool__]: present when one of the fields is set. *)
Definition bool (a : t) : Datatypes.bool :=
  is_not_None (eval a) || is_not_None (mate a) || is_not_None (best a)
  || is_not_None (variation a) || is_not_None (judgement a).
End MoveAnalysis.

Module Move.
Record t := make {
  san : string;
  clock_centosec : Z;
  thinking_time_centoseconds : Z;
  analysis : MoveAnalysis.t
}.
(** [Move()] *)
Definition default : t := make "" 0 0 MoveAnalysis.default.

(** [judgement.name == s] for a string literal [s]. *)
Definition name_is (j : Judgment.t) (s : string) : bool :=
  match Judgment.name j with
  | Some n => String.eqb n s
  | None => false
  end.

Definition get_decorated_move (self : t) : string :=
  let out := san self in
  match MoveAnalysis.judgement (analysis self) with
  | Some j =>
      let out := if name_is j "Inaccuracy" then out +:+ "?!" else out in
      let out := if name_is j "Mistake" then out +:+ "?" else out in
      let out := if name_is j "Blunder" then out +:+ "??" else out in
      out
  | None => out
  end.

(** The two conversions below go through floating point in the source:
    both start with [value / 100].  On an [int] this division raises
    [OverflowError] when the quotient, rounded to the nearest float, is
    beyond the largest one, that is when the value is at least
    [100 * (2^1024 - 2^970)] in absolute value; nothing else in them raises.
    The text they return otherwise ([//], and the [04.1f] and [str]
    renderings of a float) is taken as given. *)
Definition truediv_100_overflows (value : Z) : bool :=
  (100 * (2 ^ 1024 - 2 ^ 970) <=? Z.abs value)%Z.

Section Floats.
(** the text [_centoseconds_to_timestr(value)] returns *)
Variable centoseconds_to_timestr : Z -> string.
(** the text [str(value / 100)] returns *)
Variable str_of_hundredths : Z -> string.

(** [_centoseconds_to_timestr(value)] *)
Definition timestr (value : Z) : result string :=
  if truediv_100_overflows value then Raise OverflowError
  else Ok (centoseconds_to_timestr value).

(** What [format_evaluation] returns, when it returns. *)
Definition evaluation_text (self : t) : string :=
  if MoveAnalysis.bool (analysis self) then
    match MoveAnalysis.mate (analysis self) with
    | Some k => " #" +:+ str_of_Z k
    | None =>
        match MoveAnalysis.eval (analysis self) with
        | Some e =>
            let out := str_of_hundredths e in
            if negb (startswith "-" out) then " " +:+ out else out
        | None => ""
        end
    end
  else "".

(** [format_evaluation]: the division is made for an evaluation that is
    there, when no mate count is. *)
Definition format_evaluation (self : t) : result string :=
  if MoveAnalysis.bool (analysis self) then
    match MoveAnalysis.mate (analysis self) with
    | Some _ => Ok (evaluation_text self)
    | None =>
        match MoveAnalysis.eval (analysis self) with
        | Some e =>
            if truediv_100_overflows e then Raise OverflowError
            else Ok (evaluation_text self)
        | None => Ok (evaluation_text self)
        end
    end
  else Ok (evaluation_text self).

(** What the property [clock] returns, when it returns. *)
Definition clock_text (self : t) : string :=
  centoseconds_to_timestr (clock_centosec self).

Definition clock (self : t) : result string :=
  timestr (clock_centosec self).

Definition thinking_time (self : t) : result string :=
  timestr (thinking_time_centoseconds self).
End Floats.
End Move.

(** ** The rules engine ([chess], an outside library)

    What the renderer asks of it: the board of a position in FEN, the reading
    of a move in algebraic notation against a position (which fails on a text
    that is no legal move there), the text diagram and the piece placement of
    a position.  A board keeps the stack of the moves pushed on it, each by
    its coordinate notation. *)
Module chess.
Record Engine := {
  Position : Type;
  (** [chess.Board(fen)] for the FEN the renderer passes *)
  from_fen : string -> Position;
  (** the move a text stands for (by its [uci()]) and the position after it *)
  parse_san : Position -> string -> option (string * Position);
  (** [str(board)] *)
  str : Position -> string;
  board_fen : Position -> string
}.

Record Board (E : Engine) := make {
  position : Position E;
  move_stack : list string
}.
Arguments make {E}.
Arguments position {E}.
Arguments move_stack {E}.

Definition new (E : Engine) (fen : string) : Board E :=
  make (from_fen E fen) [].

(** [board.push_san(san)]: an illegal, ambiguous or malformed text raises
    (a subclass of) [ValueError]. *)
Definition push_san {E} (board : Board E) (san : string) : result (Board E) :=
  match parse_san E (position board) san with
  | Some (uci, p) => Ok (make p (move_stack board ++ [uci])%list)
  | None => Raise ValueError
  end.
End chess.

(** [urllib.parse.quote_plus(s)] *)
Definition is_unreserved (c : ascii) : bool :=
  let n := nat_of_ascii c in
  (((48 <=? n) && (n <=? 57)) || ((65 <=? n) && (n <=? 90))
   || ((97 <=? n) && (n <=? 122))
   || (n =? 95) || (n =? 46) || (n =? 45) || (n =? 126))%nat.

Fixpoint quote_plus (s : string) : string :=
  match s with
  | "" => ""
  | String c s' =>
      (if is_unreserved c then String c ""
       else if ascii_dec c " " then "+"
       else let n := N_of_ascii c in
            String "%" (String (hex_digit true (n / 16)) (String (hex_digit true (n mod 16)) "")))
      +:+ quote_plus s'
  end.

Definition WHITE_KING := "♔".
Definition WHITE_QUEEN := "♕".
Definition WHITE_ROOK := "♖".
Definition WHITE_BISHOP := "♗".
Definition WHITE_KNIGHT := "♘".
Definition WHITE_PAWN := "♙".
Definition BLACK_KING := "♚".
Definition BLACK_QUEEN := "♛".
Definition BLACK_ROOK := "♜".
Definition BLACK_BISHOP := "♝".
Definition BLACK_KNIGHT := "♞".
Definition BLACK_PAWN := "♟".

(** [lines[i] += suffix] *)
Definition append_to_line (i : nat) (suffix : string) (lines : list string)
  : result (list string) :=
  match lines !! i with
  | Some l => Ok (<[i := l +:+ suffix]> lines)
  | None => Raise IndexError
  end.

(** [l[-1]] *)
Definition last_item {A} (l : list A) : result A :=
  match last l with
  | Some x => Ok x
  | None => Raise IndexError
  end.

(** [str(x)] for a value that may be [None]. *)
Definition str_of_opt (x : option string) : string :=
  match x with
  | Some s => s
  | None => "None"
  end.

Module Game.
Record t := make {
  id : string;
  rated : bool;
  variant : string;
  speed : string;
  perf : string;
  created_at : Z;
  last_move_at : Z;
  status : string;
  source : string;
  players : Player.t * Player.t;
  winner : option Color;
  moves : list (Move.t * option Move.t);
  clock : Clock.t;
  division : Division.t;
  opening : Opening.t;
  has_analysis : bool
}.

Definition start_positions : string :=
  "rnbqkbnr/pppppppp/8/8/8/8/PPPPPPPP/RNBQKBNR w KQkq - 0 1".

(** The table of [to_console] from a status code to its phrase;
    [pretty_endings[status]] raises [KeyError] outside it. *)
Definition pretty_endings : list (string * string) :=
  [ ("draw", "draw");
    ("stalemate", "stalemate");
    ("mate", "was checkmated");
    ("resign", "resigned");
    ("outoftime", "ran out of time") ].

Fixpoint lookup_ending (table : list (string * string)) (key : string)
  : result string :=
  match table with
  | [] => Raise (KeyError key)
  | (k, v) :: table' => if String.eqb key k then Ok v else lookup_ending table' key
  end.

(** "Game ending info": the two scores and the result line. *)
Definition game_ending_info (self : t) : result (string * string * string) :=
  let score_white := "½" in
  let score_black := "½" in
  match winner self with
  | Some w =>
      let winner_str := value w in
      let '(score_white, score_black, loser_str) :=
        match w with
        | WHITE => ("1", "0", value BLACK)
        | BLACK => ("0", "1", value WHITE)
        end in
      ending ← lookup_ending pretty_endings (status self);
      Ok (score_white, score_black,
          capitalize winner_str +:+ " wins: " +:+ loser_str +:+ " " +:+ ending)
  | None =>
      Ok (score_white, score_black,
          "The game ended with a " +:+ capitalize (status self))
  end.

(** One of the two blocks of "Add middlegame and endgame info": a boundary
    that is [None] or [0] is skipped. *)
Definition phase_line (phase : string) (boundary : option Z) : string :=
  match boundary with
  | Some ply =>
      if negb (ply =? 0)%Z then
        let move_no := ply / 2 + 1 in
        let white_or_black := if (ply mod 2 =? 0)%Z then "black" else "white" in
        phase +:+ " started at move " +:+ str_of_Z move_no
        +:+ " (" +:+ white_or_black +:+ ")" +:+ NL
      else ""
  | None => ""
  end.

Definition phase_info (self : t) : string :=
  phase_line "Middlegame" (Division.middle (division self))
  +:+ phase_line "Endgame" (Division.end_ (division self)).

Section Rendering.
Variable centoseconds_to_timestr : Z -> string.
Variable str_of_hundredths : Z -> string.
Variable E : chess.Engine.

Let clock_of := Move.clock_text centoseconds_to_timestr.
Let format_evaluation := Move.evaluation_text str_of_hundredths.

(** The replay loop of [board_at_end]. *)
Fixpoint replay (board : chess.Board E) (pairs : list (Move.t * option Move.t))
  : result (chess.Board E) :=
  match pairs with
  | [] => Ok board
  | (move_white, move_black) :: pairs' =>
      board ← chess.push_san board (Move.san move_white);
      board ← match move_black with
               | Some move_black => chess.push_san board (Move.san move_black)
               | None => Ok board
               end;
      replay board pairs'
  end.

(** The letters of the text diagram replaced by the chess symbols. *)
Definition unicode_symbols (board_str : string) : string :=
  let board_str := replace "k" BLACK_KING board_str in
  let board_str := replace "q" BLACK_QUEEN board_str in
  let board_str := replace "r" BLACK_ROOK board_str in
  let board_str := replace "b" BLACK_BISHOP board_str in
  let board_str := replace "n" BLACK_KNIGHT board_str in
  let board_str := replace "p" BLACK_PAWN board_str in
  let board_str := replace "K" WHITE_KING board_str in
  let board_str := replace "Q" WHITE_QUEEN board_str in
  let board_str := replace "R" WHITE_ROOK board_str in
  let board_str := replace "B" WHITE_BISHOP board_str in
  let board_str := replace "N" WHITE_KNIGHT board_str in
  let board_str := replace "P" WHITE_PAWN board_str in
  board_str.

Definition board_at_end (self : t) : result (chess.Board E * string) :=
  let board := chess.new E start_positions in
  board ← replay board (moves self);
  let board_str := unicode_symbols (chess.str E (chess.position board)) in
  let board_lines := split (ascii_of_nat 10) board_str in
  board_lines ← append_to_line 3 ("   " +:+ WHITE_PAWN +:+ ": white") board_lines;
  board_lines ← append_to_line 4 ("   " +:+ BLACK_PAWN +:+ ": black") board_lines;
  Ok (board, join NL board_lines).

(** One row of the move table, from the texts of the conversions. *)
Definition move_row (has_analysis : bool) (move_counter : Z)
    (move_white : Move.t) (move_black : option Move.t) : string :=
  let move_black := match move_black with
                    | Some m => m
                    | None => Move.default
                    end in
  let san_deco_white := Move.get_decorated_move move_white in
  let san_deco_black := Move.get_decorated_move move_black in
  let row := rjust 3 (str_of_Z move_counter) +:+ ". "
             +:+ ljust 8 san_deco_white +:+ " " +:+ ljust 8 san_deco_black in
  let clock_white := clock_of move_white in
  let clock_black :=
    if negb (String.eqb (Move.san move_black) "") then clock_of move_black
    else spaces (py_len (clock_of move_white)) in
  let row := row +:+ "   " +:+ clock_white +:+ "   " +:+ clock_black in
  let row :=
    if has_analysis then
      let eval_white := format_evaluation move_white in
      let eval_black := format_evaluation move_black in
      let row := row +:+ "   " +:+ ljust 6 eval_white +:+ "  " +:+ ljust 6 eval_black in
      let row := match MoveAnalysis.judgement (Move.analysis move_white) with
                 | Some j => row +:+ "   White: " +:+ str_of_opt (Judgment.comment j)
                 | None => row
                 end in
      let row := match MoveAnalysis.judgement (Move.analysis move_black) with
                 | Some j => row +:+ "   Black: " +:+ str_of_opt (Judgment.comment j)
                 | None => row
                 end in
      row
    else row in
  row +:+ NL.

(** The rows, numbered from [move_counter], from the texts of the
    conversions. *)
Fixpoint moves_info (has_analysis : bool) (move_counter : Z)
    (pairs : list (Move.t * option Move.t)) : string :=
  match pairs with
  | [] => ""
  | (move_white, move_black) :: pairs' =>
      move_row has_analysis move_counter move_white move_black
      +:+ moves_info has_analysis (move_counter + 1) pairs'
  end.

(** One turn of the loop of "Moves info": the conversions, in the order the
    source makes them ([move_white.clock]; [move_black.clock] when black has
    a notation, [move_white.clock] once more otherwise; the two evaluations
    when the game is analysed), any of which may raise, and the row. *)
Definition render_row (has_analysis : bool) (move_counter : Z)
    (move_white : Move.t) (move_black : option Move.t) : result string :=
  let black := match move_black with
               | Some m => m
               | None => Move.default
               end in
  _ ← Move.clock centoseconds_to_timestr move_white;
  _ ← (if negb (String.eqb (Move.san black) "")
       then Move.clock centoseconds_to_timestr black
       else Move.clock centoseconds_to_timestr move_white);
  _ ← (if has_analysis then
         _ ← Move.format_evaluation str_of_hundredths move_white;
         Move.format_evaluation str_of_hundredths black
       else Ok "");
  Ok (move_row has_analysis move_counter move_white move_black).

(** "Moves info": the loop over the pairs. *)
Fixpoint render_rows (has_analysis : bool) (move_counter : Z)
    (pairs : list (Move.t * option Move.t)) : result string :=
  match pairs with
  | [] => Ok ""
  | (move_white, move_black) :: pairs' =>
      row ← render_row has_analysis move_counter move_white move_black;
      rows ← render_rows has_analysis (move_counter + 1) pairs';
      Ok (row +:+ rows)
  end.

(** "Render": the header and the players summary. *)
Definition summary (self : t) (score_white score_black : string) : string :=
  let '(player_white, player_black) := players self in
  let white_player_and_rating :=
    py_take 25 (User.name (Player.user player_white))
    +:+ " (" +:+ str_of_Z (Player.rating player_white) +:+ ")" in
  let black_player_and_rating :=
    py_take 25 (User.name (Player.user player_black))
    +:+ " (" +:+ str_of_Z (Player.rating player_black) +:+ ")" in
  let time_control :=
    str_of_Z (Clock.initial (clock self) / 60) +:+ "+"
    +:+ str_of_Z (Clock.increment (clock self)) in
  let rated := if rated self then "RATED" else "NOT RATED" in
  let a_white := Player.analysis player_white in
  let a_black := Player.analysis player_black in
  "LICHESS.ORG · " +:+ time_control +:+ " · " +:+ upper (speed self)
  +:+ " · " +:+ rated +:+ NL
  +:+ NL
  +:+ "WHITE: " +:+ ljust 32 white_player_and_rating
  +:+ " BLACK: " +:+ black_player_and_rating +:+ NL
  +:+ "  Score..............: " +:+ score_white
  +:+ "                  Score..............: " +:+ score_black +:+ NL
  +:+ "  Rating change......: " +:+ ljust 3 (str_of_Z (Player.rating_diff player_white))
  +:+ "                Rating change......: "
  +:+ str_of_Z (Player.rating_diff player_black) +:+ NL
  +:+ (if has_analysis self then
         "  Inaccuracies.......: "
         +:+ ljust 3 (str_of_Z (PlayerGameAnalysis.inaccuracy a_white))
         +:+ "                Inaccuracies.......: "
         +:+ str_of_Z (PlayerGameAnalysis.inaccuracy a_black) +:+ NL
         +:+ "  Mistakes...........: "
         +:+ ljust 3 (str_of_Z (PlayerGameAnalysis.mistake a_white))
         +:+ "                Mistakes...........: "
         +:+ str_of_Z (PlayerGameAnalysis.mistake a_black) +:+ NL
         +:+ "  Blunders...........: "
         +:+ ljust 3 (str_of_Z (PlayerGameAnalysis.blunder a_white))
         +:+ "                Blunders...........: "
         +:+ str_of_Z (PlayerGameAnalysis.blunder a_black) +:+ NL
         +:+ "  AvgLostCentiPawns..: "
         +:+ ljust 3 (str_of_Z (PlayerGameAnalysis.acpl a_white))
         +:+ "                AvgLostCentiPawns..: "
         +:+ str_of_Z (PlayerGameAnalysis.acpl a_black) +:+ NL
       else
         NL +:+ "This game has not been analyzed, so analysis data is unavailable."
         +:+ NL)
  +:+ NL
  +:+ "Opening: [" +:+ Opening.eco (opening self) +:+ "] "
  +:+ Opening.name (opening self) +:+ NL +:+ NL.

Definition to_console (self : t) : result string :=
  moves_txt ← render_rows (has_analysis self) 1 (moves self);
  '(score_white, score_black, game_ending) ← game_ending_info self;
  let out := summary self score_white score_black in
  let out := out +:+ moves_txt +:+ NL in
  let out := out +:+ "*** " +:+ game_ending +:+ " ***" +:+ NL in
  let out := out +:+ NL in
  let out := out +:+ phase_info self in
  '(board, board_unicode) ← board_at_end self;
  last_move_uci ← last_item (chess.move_stack board);
  let board_fen := chess.board_fen E (chess.position board) in
  let board_gif_url :=
    "GIF: https://lichess.org/export/fen.gif?fen=" +:+ quote_plus board_fen
    +:+ "&lastMove=" +:+ last_move_uci in
  let out := out +:+ NL +:+ "Final position:" +:+ NL in
  let out := out +:+ board_unicode +:+ "   " +:+ board_gif_url +:+ NL in
  let out := out +:+ NL in
  let out := out +:+ "Game URL: https://lichess.org/" +:+ id self +:+ NL in
  let out := out +:+ NL in
  Ok out.
End Rendering.
End Game.

(** ** The record parser ([game_exporter.py]) *)

(** ["analysis" in json.dumps(json_game)] *)
Definition detect_analysis (json_game : json) : bool :=
  contains "analysis" (json_dumps json_game).

(** The "PLAYERS" block, the same text for the two sides: the summary of the
    analysis, then the player. *)
Definition player_from_json (has_analysis : bool) (color : Color) (json_player : json)
  : result Player.t :=
  player_game_analysis ←
    (if has_analysis then
       a ← get json_player "analysis" (JObj []);
       v ← get a "inaccuracy" (JInt (-1)); inaccuracy ← as_int v;
       a ← get json_player "analysis" (JObj []);
       v ← get a "mistake" (JInt (-1)); mistake ← as_int v;
       a ← get json_player "analysis" (JObj []);
       v ← get a "blunder" (JInt (-1)); blunder ← as_int v;
       a ← get json_player "analysis" (JObj []);
       v ← get a "acpl" (JInt (-1)); acpl ← as_int v;
       Ok (PlayerGameAnalysis.make inaccuracy mistake blunder acpl)
     else Ok PlayerGameAnalysis.default);
  u ← getitem json_player "user"; v ← getitem u "name"; name ← as_str v;
  u ← getitem json_player "user"; v ← getitem u "id"; id ← as_str v;
  v ← getitem json_player "rating"; rating ← as_int v;
  v ← getitem json_player "ratingDiff"; rating_diff ← as_int v;
  Ok (Player.make color (User.make name id) rating rating_diff player_game_analysis).

(** The annotation of the ply [idx]. *)
Definition move_analysis_from_json (has_analysis : bool) (moves_analyses : json)
    (idx : nat) : result MoveAnalysis.t :=
  if has_analysis then
    n ← len moves_analyses;
    if (idx <? n)%nat then
      a ← getindex moves_analyses idx; v ← get a "eval" JNull; eval ← as_opt_int v;
      a ← getindex moves_analyses idx; v ← get a "mate" JNull; mate ← as_opt_int v;
      a ← getindex moves_analyses idx; v ← get a "best" JNull; best ← as_opt_str v;
      a ← getindex moves_analyses idx; v ← get a "variation" JNull;
      variation ← as_opt_str v;
      a ← getindex moves_analyses idx; j ← get a "judgment" JNull;
      judgement ←
        (if truthy j then
           a ← getindex moves_analyses idx; j ← getitem a "judgment";
           v ← getitem j "name"; name ← as_opt_str v;
           a ← getindex moves_analyses idx; j ← getitem a "judgment";
           v ← getitem j "comment"; comment ← as_opt_str v;
           Ok (Some (Judgment.make name comment))
         else Ok None);
      Ok (MoveAnalysis.make eval mate best variation judgement)
    else Ok MoveAnalysis.default
  else Ok MoveAnalysis.default.

(** The move of the ply [idx]: its thinking time, its annotation, and the
    [Move] built from them. *)
Definition move_from_json (has_analysis : bool) (moves_clocks moves_analyses : json)
    (idx : nat) (move_san : string) : result Move.t :=
  thinking_time_cs ←
    (if (2 <=? idx)%nat then
       a ← getindex moves_clocks idx;
       b ← getindex moves_clocks (idx - 2);
       d ← sub a b;
       as_int d
     else Ok 0);
  move_analysis ← move_analysis_from_json has_analysis moves_analyses idx;
  c ← getindex moves_clocks idx; clock_centosec ← as_int c;
  Ok (Move.make move_san clock_centosec thinking_time_cs move_analysis).

(** The loop over [enumerate(moves_sans)], from the ply [idx] on.  The two
    variables [color] and [move_white] of the source change together
    ([color] is [BLACK] exactly while [move_white] holds a move), so the
    state keeps one value for both: [move_white = None] stands for
    [color == Color.WHITE]. *)
Fixpoint pair_moves (has_analysis : bool) (moves_clocks moves_analyses : json)
    (idx : nat) (moves_sans : list string)
    (moves : list (Move.t * option Move.t)) (move_white : option Move.t)
  : result (list (Move.t * option Move.t) * option Move.t) :=
  match moves_sans with
  | [] => Ok (moves, move_white)
  | move_san :: moves_sans' =>
      move ← move_from_json has_analysis moves_clocks moves_analyses idx move_san;
      match move_white with
      | None =>
          pair_moves has_analysis moves_clocks moves_analyses (S idx) moves_sans'
            moves (Some move)
      | Some white =>
          pair_moves has_analysis moves_clocks moves_analyses (S idx) moves_sans'
            (moves ++ [(white, Some move)])%list None
      end
  end.

Definition create_game_from_json (json_game : json) : result Game.t :=
  let has_analysis := detect_analysis json_game in
  (* PLAYERS *)
  ps ← getitem json_game "players"; json_player ← getitem ps "white";
  player_white ← player_from_json has_analysis WHITE json_player;
  ps ← getitem json_game "players"; json_player ← getitem ps "black";
  player_black ← player_from_json has_analysis BLACK json_player;
  (* MOVES *)
  m ← getitem json_game "moves"; moves_sans ← split_spaces m;
  moves_clocks ← getitem json_game "clocks";
  moves_analyses ← get json_game "analysis" JNull;
  '(moves, move_white) ←
    pair_moves has_analysis moves_clocks moves_analyses 0 moves_sans [] None;
  let moves := match move_white with
               | Some white => (moves ++ [(white, None)])%list
               | None => moves
               end in
  (* GAME DETAILS *)
  o ← getitem json_game "opening"; v ← get o "eco" (JStr ""); eco ← as_str v;
  o ← getitem json_game "opening"; v ← get o "name" (JStr ""); name ← as_str v;
  o ← getitem json_game "opening"; v ← get o "ply" (JInt 0); ply ← as_int v;
  let opening := Opening.make eco name ply in
  c ← getitem json_game "clock"; v ← get c "initial" (JInt (-1)); initial ← as_int v;
  c ← getitem json_game "clock"; v ← get c "increment" (JInt (-1));
  increment ← as_int v;
  c ← getitem json_game "clock"; v ← get c "totalTime" (JInt (-1));
  total_time ← as_int v;
  let clock := Clock.make initial increment total_time in
  d ← getitem json_game "division"; v ← get d "middle" JNull; middle ← as_opt_int v;
  d ← getitem json_game "division"; v ← get d "end" JNull; end_ ← as_opt_int v;
  let division := Division.make middle end_ in
  v ← get json_game "id" (JStr "N/A"); id ← as_str v;
  v ← get json_game "rated" (JBool true); rated ← as_bool v;
  v ← get json_game "variant" (JStr "N/A"); variant ← as_str v;
  v ← get json_game "speed" (JStr "N/A"); speed ← as_str v;
  v ← get json_game "status" (JStr "N/A"); status ← as_str v;
  winner_str ← get json_game "winner" (JStr "");
  let winner := None in
  let winner := if eq_str winner_str "white" then Some WHITE else winner in
  let winner := if eq_str winner_str "black" then Some BLACK else winner in
  Ok {| Game.id := id;
        Game.rated := rated;
        Game.variant := variant;
        Game.speed := speed;
        Game.perf := "";
        Game.created_at := -1;
        Game.last_move_at := -1;
        Game.status := status;
        Game.source := "";
        Game.players := (player_white, player_black);
        Game.winner := winner;
        Game.moves := moves;
        Game.clock := clock;
        Game.division := division;
        Game.opening := opening;
        Game.has_analysis := has_analysis |}.

(** ** Reference definitions

    What the specification says in its own words, to compare with the code,
    and the notions the statements below are phrased with. *)

(** The severity tag of a move: the name of its judgment, if it has one. *)
Definition severity (m : Move.t) : option string :=
  match MoveAnalysis.judgement (Move.analysis m) with
  | Some j => Judgment.name j
  | None => None
  end.

(** The decoration of a severity tag, as Lichess spells the three tags. *)
Definition decoration_suffix (tag : option string) : string :=
  match tag with
  | Some n =>
      if String.eqb n "Inaccuracy" then "?!"
      else if String.eqb n "Mistake" then "?"
      else if String.eqb n "Blunder" then "??"
      else ""
  | None => ""
  end.

(** The two score strings of a winner field. *)
Definition scores_of_winner (w : option Color) : string * string :=
  match w with
  | Some WHITE => ("1", "0")
  | Some BLACK => ("0", "1")
  | None => ("½", "½")
  end.

(** The plies of a game in the order they were played. *)
Fixpoint plies (pairs : list (Move.t * option Move.t)) : list Move.t :=
  match pairs with
  | [] => []
  | (w, Some b) :: pairs' => w :: b :: plies pairs'
  | (w, None) :: pairs' => w :: plies pairs'
  end.

(** Plies grouped two by two, white first; a last ply alone has no reply. *)
Fixpoint pair_up (ms : list Move.t) : list (Move.t * option Move.t) :=
  match ms with
  | [] => []
  | w :: ms' =>
      match ms' with
      | [] => [(w, None)]
      | b :: ms'' => (w, Some b) :: pair_up ms''
      end
  end.

(** The moves of the plies [idx], [idx + 1], ... of a record, one by one:
    the loop of the parser without the pairing. *)
Fixpoint plies_from_json (has_analysis : bool) (moves_clocks moves_analyses : json)
    (idx : nat) (moves_sans : list string) : result (list Move.t) :=
  match moves_sans with
  | [] => Ok []
  | move_san :: moves_sans' =>
      move ← move_from_json has_analysis moves_clocks moves_analyses idx move_san;
      ms ← plies_from_json has_analysis moves_clocks moves_analyses (S idx) moves_sans';
      Ok (move :: ms)
  end.

(** The pairs the parser stores at the end of its loop: the finished pairs
    and, when white's last move got no reply, that move alone. *)
Definition finish (moves : list (Move.t * option Move.t)) (move_white : option Move.t)
  : list (Move.t * option Move.t) :=
  match move_white with
  | Some white => moves ++ [(white, None)]
  | None => moves
  end.

(** Whether a key "analysis" can be reached in a record: in the record
    itself or in a value below it.  This is the structural test the
    specification describes. *)
Fixpoint analysis_field_reachable (v : json) : bool :=
  match v with
  | JList l => existsb analysis_field_reachable l
  | JObj o =>
      existsb (fun kv => String.eqb kv.1 "analysis" || analysis_field_reachable kv.2) o
  | _ => false
  end.

(** *** Well-formed records

    The shape of the records Lichess serves, as far as the parser reads
    them: which JSON type a field has when it is present. *)










(** ** Sample records and games *)

Definition sample_player (c : Color) (name : string) (rating : Z) : Player.t :=
  Player.make c (User.make name name) rating 0 PlayerGameAnalysis.default.

Definition sample_move (san : string) (clock : Z) : Move.t :=
  Move.make san clock 0 MoveAnalysis.default.

(** A game of two sample players, with the given winner, status, middlegame
    boundary and moves. *)
Definition sample_game (winner : option Color) (status : string)
    (middle : option Z) (moves : list (Move.t * option Move.t)) : Game.t :=
  {| Game.id := "q7ZvsdUF";
     Game.rated := true;
     Game.variant := "standard";
     Game.speed := "blitz";
     Game.perf := "";
     Game.created_at := -1;
     Game.last_move_at := -1;
     Game.status := status;
     Game.source := "";
     Game.players := (sample_player WHITE "alice" 1500, sample_player BLACK "bob" 1480);
     Game.winner := winner;
     Game.moves := moves;
     Game.clock := Clock.make 300 3 420;
     Game.division := Division.make middle None;
     Game.opening := Opening.make "C20" "King's Pawn Game" 2;
     Game.has_analysis := false |}.

(** Lichess ends a game with the status "timeout" when a player leaves it. *)
Definition game_left_by_black : Game.t :=
  sample_game (Some WHITE) "timeout" None
    [(sample_move "e4" 30000, Some (sample_move "e5" 30000))].

Definition game_without_moves : Game.t :=
  sample_game None "aborted" None [].

Definition sample_player_json (name : string) (rating : Z) : json :=
  JObj [("user", JObj [("name", JStr name); ("id", JStr name)]);
        ("rating", JInt rating);
        ("ratingDiff", JInt 0)].

Definition sample_players : json :=
  JObj [("white", sample_player_json "alice" 1500);
        ("black", sample_player_json "bob" 1480)].

Definition sample_blocks : list (string * json) :=
  [("opening", JObj [("eco", JStr "C20"); ("name", JStr "King's Pawn Game");
                     ("ply", JInt 2)]);
   ("clock", JObj [("initial", JInt 300); ("increment", JInt 3);
                   ("totalTime", JInt 420)]);
   ("division", JObj [])].

(** A record of the given moves and clock samples, with the players above
    and the fields [fields] besides. *)
Definition sample_record (moves : string) (clocks : list Z)
    (fields : list (string * json)) : json :=
  JObj ([("id", JStr "q7ZvsdUF");
         ("players", sample_players);
         ("moves", JStr moves);
         ("clocks", JList (JInt <$> clocks))] ++ fields)%list.

(** Three plies on a five-minute clock: white spends one second on its
    second move. *)
Definition record_three_plies : json :=
  sample_record "e4 e5 Nf3" [30000; 30000; 29900] sample_blocks.


(** A won game whose record gives no status. *)
Definition record_won_without_status : json :=
  sample_record "e4 e5 Nf3" [30000; 30000; 29900]
    (sample_blocks ++ [("winner", JStr "white")])%list.

(** A record without any move text, with no clock sample or with one. *)
Definition record_without_moves (clocks : list Z) : json :=
  sample_record "" clocks sample_blocks.

(** A record of a game that was not analysed, played by a user whose name
    holds the word. *)
Definition record_of_analysis_fan : json :=
  JObj ([("id", JStr "q7ZvsdUF");
         ("players",
          JObj [("white", sample_player_json "analysis_fan" 1500);
                ("black", sample_player_json "bob" 1480)]);
         ("moves", JStr "e4 e5 Nf3");
         ("clocks", JList (JInt <$> [30000; 30000; 29900]))] ++ sample_blocks)%list.



(** ** The command line ([game_exporter.py], the main block) *)

(** What [lichess.api.game] answers for an identifier: the record, a failed
    connection, or another error of the library. *)
Inductive api_answer :=
  | ApiRecord (v : json)
  | ApiConnectionError
  | ApiOtherError.

(** The result of a call that may let an error of the library through. *)
Inductive fetched :=
  | Returned (v : option json)
  | Propagated.

(** How a run ends: it falls off the end of the script, it calls [sys.exit],
    or an exception reaches the top. *)
Inductive ending :=
  | Finished
  | SysExit (code : Z)
  | Uncaught (e : exception)
  | UncaughtApiError.

Section CommandLine.
Variable api_game : string -> api_answer.
Variable centoseconds_to_timestr : Z -> string.
Variable str_of_hundredths : Z -> string.
Variable E : chess.Engine.

(** Only [ConnectionError] is caught, and answered by [None]. *)
Definition get_game_object_from_lichess (game_id : string) : fetched :=
  match api_game game_id with
  | ApiRecord result => Returned (Some result)
  | ApiConnectionError => Returned None
  | ApiOtherError => Propagated
  end.

(** [not json_game] *)
Definition not_truthy (json_game : option json) : bool :=
  match json_game with
  | Some v => negb (truthy v)
  | None => true
  end.

(** The main block on the arguments [argv] ([argv[0]] is the script): the
    lines it prints, in order, and how it ends. *)
Definition main (argv : list string) : list string * ending :=
  match argv !! 1%nat with
  | None => (["Please supply the Lichess game ID as argument."], SysExit 0)
  | Some GAME_ID =>
      match get_game_object_from_lichess GAME_ID with
      | Propagated => ([], UncaughtApiError)
      | Returned json_game =>
          if not_truthy json_game then
            (["ERROR: Could not contact Lichess! Stopping..."], SysExit (-1))
          else
            match json_game with
            | None => (["ERROR: Could not contact Lichess! Stopping..."], SysExit (-1))
            | Some json_game =>
                match create_game_from_json json_game with
                | Raise e => ([], Uncaught e)
                | Ok game =>
                    (* print() comes before game.to_console() is evaluated *)
                    match Game.to_console centoseconds_to_timestr str_of_hundredths
                            E game with
                    | Raise e => ([""], Uncaught e)
                    | Ok out => ([""; out], Finished)
                    end
                end
            end
      end
  end.
End CommandLine.

(** ** More reference definitions *)

(** Whether the character [c] occurs in [s]. *)
Fixpoint occurs (c : ascii) (s : string) : bool :=
  match s with
  | "" => false
  | String d s' => if ascii_dec c d then true else occurs c s'
  end.

(** Whether every character of [t] is foreign to [p]. *)
Fixpoint foreign (p t : string) : bool :=
  match t with
  | "" => true
  | String c t' => negb (occurs c p) && foreign p t'
  end.

(** The number of occurrences of [c] in [s]. *)
Fixpoint count_char (c : ascii) (s : string) : nat :=
  match s with
  | "" => 0%nat
  | String d s' => if ascii_dec d c then S (count_char c s') else count_char c s'
  end.

(** Whether the word "analysis" stands in a key or in a text value of the
    record, as [json.dumps] writes them. *)
Fixpoint mentions_analysis (v : json) : bool :=
  match v with
  | JStr s => contains "analysis" (escape_string s)
  | JList l => existsb mentions_analysis l
  | JObj o =>
      existsb (fun kv => contains "analysis" (escape_string kv.1)
                         || mentions_analysis kv.2) o
  | _ => false
  end.

(** Text that [json.dumps] writes as it is: printable ASCII without the quote
    and the backslash. *)
Definition plain_char (c : ascii) : bool :=
  let n := N_of_ascii c in
  ((32 <=? n) && (n <=? 126) && negb (n =? 34) && negb (n =? 92))%N.
Fixpoint plain (s : string) : bool :=
  match s with
  | "" => true
  | String c s' => plain_char c && plain s'
  end.

(** The twelve letters of the text diagram of a board. *)
Definition piece_letters : string := "kqrbnpKQRBNP".

(** The coordinate notations the replay of [pairs] pushes, when the engine
    reads every move: the engine's readings, ply after ply. *)
Fixpoint replay_stack (E : chess.Engine) (p : chess.Position E)
    (sans : list string) : option (list string * chess.Position E) :=
  match sans with
  | [] => Some ([], p)
  | san :: sans' =>
      match chess.parse_san E p san with
      | Some (uci, p') =>
          match replay_stack E p' sans' with
          | Some (ucis, q) => Some (uci :: ucis, q)
          | None => None
          end
      | None => None
      end
  end.

(** ** A rules engine for the examples

    It takes every text but the empty one for a move, keeps the texts it was
    given, and draws the initial diagram whatever the position. *)
Definition initial_diagram : string :=
  join NL ["r n b q k b n r"; "p p p p p p p p"; ". . . . . . . .";
           ". . . . . . . ."; ". . . . . . . ."; ". . . . . . . .";
           "P P P P P P P P"; "R N B Q K B N R"].

Definition sample_engine : chess.Engine :=
  {| chess.Position := list string;
     chess.from_fen := fun _ => [];
     chess.parse_san := fun p san =>
       if String.eqb san "" then None else Some (san, (p ++ [san])%list);
     chess.str := fun _ => initial_diagram;
     chess.board_fen := fun _ => "rnbqkbnr/pppppppp/8/8/8/8/PPPPPPPP/RNBQKBNR" |}.

Definition sample_timestr (value : Z) : string := str_of_Z value.

(** An answering service that knows one game. *)
Definition sample_api (game_id : string) : api_answer :=
  if String.eqb game_id "q7ZvsdUF" then ApiRecord record_three_plies
  else ApiConnectionError.

(** An analysed record: the second ply was a blunder. *)
Definition record_analysed : json :=
  sample_record "e4 f6 Nf3" [30000; 30000; 29900]
    (sample_blocks ++
     [("analysis",
       JList [JObj [("eval", JInt 30)];
              JObj [("eval", JInt 120); ("best", JStr "e7e5");
                    ("judgment",
                     JObj [("name", JStr "Blunder");
                           ("comment", JStr "Blunder. e5 was best.")])]])])%list.

(** The typed player [pl] holds what the block [p] of a side gives: the name
    and the id of the user, the rating and its change. *)
Definition copied_from (pl : Player.t) (p : json) : Prop :=
  exists u,
    getitem p "user" = Ok u
    /\ getitem u "name" = Ok (JStr (User.name (Player.user pl)))
    /\ getitem u "id" = Ok (JStr (User.id (Player.user pl)))
    /\ getitem p "rating" = Ok (JInt (Player.rating pl))
    /\ getitem p "ratingDiff" = Ok (JInt (Player.rating_diff pl)).

(** The annotation [ma] holds what the entry [a] of the analysis list gives:
    the four optional fields, and a judgment exactly when the entry has one
    that counts as true. *)
Definition annotation_of (ma : MoveAnalysis.t) (a : json) : Prop :=
  (exists v, get a "eval" JNull = Ok v /\ as_opt_int v = Ok (MoveAnalysis.eval ma))
  /\ (exists v, get a "mate" JNull = Ok v /\ as_opt_int v = Ok (MoveAnalysis.mate ma))
  /\ (exists v, get a "best" JNull = Ok v /\ as_opt_str v = Ok (MoveAnalysis.best ma))
  /\ (exists v, get a "variation" JNull = Ok v
                /\ as_opt_str v = Ok (MoveAnalysis.variation ma))
  /\ exists j,
       get a "judgment" JNull = Ok j
       /\ match MoveAnalysis.judgement ma with
          | None => truthy j = false
          | Some jd =>
              truthy j = true
              /\ (exists v, getitem j "name" = Ok v
                            /\ as_opt_str v = Ok (Judgment.name jd))
              /\ (exists v, getitem j "comment" = Ok v
                            /\ as_opt_str v = Ok (Judgment.comment jd))
          end.

(** The status codes the renderer has a phrase for. *)
Definition known_statuses : list string := (Game.pretty_endings).*1.

(** A game to render: one ply, no winner, a draw. *)
Definition game_one_ply_draw : Game.t :=
  sample_game None "draw" None [(sample_move "e4" 30000, None)].

(** Whether a conversion of the row of [w] and [b] overflows: a clock that
    is converted (white's always, black's when it has a notation), or, in an
    analysed game, an evaluation that is there without a mate count. *)
Definition eval_overflows (m : Move.t) : bool :=
  match MoveAnalysis.mate (Move.analysis m), MoveAnalysis.eval (Move.analysis m) with
  | None, Some e => Move.truediv_100_overflows e
  | _, _ => false
  end.

Definition row_overflows (has_analysis : bool) (row : Move.t * option Move.t) : bool :=
  Move.truediv_100_overflows (Move.clock_centosec row.1)
  || match row.2 with
     | Some b => negb (String.eqb (Move.san b) "")
                 && Move.truediv_100_overflows (Move.clock_centosec b)
     | None => false
     end
  || has_analysis
     && (eval_overflows row.1
         || match row.2 with
            | Some b => eval_overflows b
            | None => false
            end).

(** The integers the report prints in decimal: the ratings and their
    changes, the counters of the two summaries, the two values of the time
    control, the phase boundaries and the mate counts. *)
Definition printed_integers (g : Game.t) : list Z :=
  let '(pw, pb) := Game.players g in
  let counters (p : Player.t) :=
    [Player.rating p; Player.rating_diff p;
     PlayerGameAnalysis.inaccuracy (Player.analysis p);
     PlayerGameAnalysis.mistake (Player.analysis p);
     PlayerGameAnalysis.blunder (Player.analysis p);
     PlayerGameAnalysis.acpl (Player.analysis p)] in
  (counters pw ++ counters pb
   ++ [Clock.initial (Game.clock g); Clock.increment (Game.clock g)]
   ++ option_list (Division.middle (Game.division g))
   ++ option_list (Division.end_ (Game.division g))
   ++ omap (fun m => MoveAnalysis.mate (Move.analysis m)) (plies (Game.moves g)))%list.

(** CPython, from version 3.11 on, refuses to print an integer of more than
    4300 digits ([ValueError]) unless it is set up otherwise.  The model
    prints every integer; what is stated of the rendering of all games is
    stated of the games whose integers every interpreter prints: those
    below [2^14000], which have fewer than 4300 digits. *)
Definition printable (n : Z) : bool := (Z.log2 (Z.abs n) <? 14000)%Z.

(** A game to render with a middlegame: one ply, no winner, a draw. *)
Definition game_with_middlegame : Game.t :=
  sample_game None "draw" (Some 40) [(sample_move "e4" 30000, None)].

(** What the specification of the phase lines comes to on the code: no line
    for a boundary that is absent or 0, and otherwise the move number
    [ply // 2 + 1] with the side black for an even ply, white for an odd one. *)
Definition phase_text (phase : string) (boundary : option Z) : string :=
  match boundary with
  | Some ply =>
      if (ply =? 0)%Z then ""
      else phase +:+ " started at move " +:+ str_of_Z (ply / 2 + 1) +:+ " ("
           +:+ (if Z.even ply then "black" else "white") +:+ ")" +:+ NL
  | None => ""
  end.

(** * Properties *)

(** ** Strings and the result monad *)

Lemma append_nil_l (s : string) : "" +:+ s = s.
Proof. reflexivity. Qed.

Lemma append_cons (c : ascii) (s t : string) :
  String c s +:+ t = String c (s +:+ t).
Proof. reflexivity. Qed.

Lemma append_nil_r (s : string) : s +:+ "" = s.
Proof.
  induction s as [|c s IH]; [reflexivity|]. now rewrite append_cons, IH.
Qed.

Lemma append_assoc (a b c : string) : (a +:+ b) +:+ c = a +:+ (b +:+ c).
Proof.
  induction a as [|x a IH]; [reflexivity|]. now rewrite !append_cons, IH.
Qed.

Lemma bind_Ok {A B} (m : result A) (f : A -> result B) (b : B) :
  m ≫= f = Ok b -> exists a, m = Ok a /\ f a = Ok b.
Proof. destruct m as [a|e]; simpl; [eauto | discriminate]. Qed.

Lemma bind_Ok_l {A B} (a : A) (f : A -> result B) : Ok a ≫= f = f a.
Proof. reflexivity. Qed.

Lemma raises_bind {A B} (m : result A) (f : A -> result B) :
  raises m -> raises (m ≫= f).
Proof. intros [e ->]. now exists e. Qed.

Lemma raises_bind_cont {A B} (m : result A) (f : A -> result B) :
  (forall a, m = Ok a -> raises (f a)) -> raises (m ≫= f).
Proof. destruct m as [a|e]; simpl; [auto | intros _; now exists e]. Qed.

(** ** Decorated moves *)

(** C9.  The decorated move is the raw notation followed by the suffix of the
    severity tag, and by nothing else: "?!" for an inaccuracy, "?" for a
    mistake, "??" for a blunder, no suffix for another tag or none.  A row of
    the move table shows each side's decorated move once, built from the raw
    notation. *)
Theorem decorated_move_suffix :
  (forall m : Move.t,
     Move.get_decorated_move m = Move.san m +:+ decoration_suffix (severity m))
  /\ decoration_suffix (Some "Inaccuracy") = "?!"
  /\ decoration_suffix (Some "Mistake") = "?"
  /\ decoration_suffix (Some "Blunder") = "??"
  /\ decoration_suffix None = ""
  /\ (forall n, n <> "Inaccuracy" -> n <> "Mistake" -> n <> "Blunder" ->
        decoration_suffix (Some n) = "")
  /\ (forall ts sh has_analysis k w b,
        exists rest,
          Game.move_row ts sh has_analysis k w (Some b) =
          rjust 3 (str_of_Z k) +:+ ". "
          +:+ ljust 8 (Move.san w +:+ decoration_suffix (severity w)) +:+ " "
          +:+ ljust 8 (Move.san b +:+ decoration_suffix (severity b)) +:+ rest).
Proof.
  assert (Hdeco : forall m : Move.t,
     Move.get_decorated_move m = Move.san m +:+ decoration_suffix (severity m)).
  { intros [san c t [ev mt bs vr [[[n|] cm]|]]];
      unfold Move.get_decorated_move, severity, Move.name_is, decoration_suffix;
      simpl; try (symmetry; apply append_nil_r).
    destruct (String.eqb_spec n "Inaccuracy") as [->|H1]; [reflexivity|].
    destruct (String.eqb_spec n "Mistake") as [->|H2]; [reflexivity|].
    destruct (String.eqb_spec n "Blunder") as [->|H3]; [reflexivity|].
    symmetry; apply append_nil_r. }
  split; [exact Hdeco|].
  repeat split.
  - intros n H1 H2 H3. unfold decoration_suffix.
    apply String.eqb_neq in H1, H2, H3. now rewrite H1, H2, H3.
  - intros ts sh ha k w b. unfold Game.move_row. cbv beta iota zeta.
    rewrite <- !Hdeco.
    destruct ha, (MoveAnalysis.judgement (Move.analysis w)),
      (MoveAnalysis.judgement (Move.analysis b));
      rewrite !append_assoc; eexists; reflexivity.
Qed.

(** ** Peeling a computation that returned *)

Ltac peel H :=
  repeat
    (let a := fresh "v" in
     let Ha := fresh "Hv" in
     apply bind_Ok in H as (a & Ha & H);
     cbv beta in H;
     lazymatch type of a with
     | prod _ _ => destruct a as [? ?]; cbv beta iota in H
     | _ => idtac
     end).

(** ** The result line and the scores *)

Lemma timestr_Ok ts value txt : Move.timestr ts value = Ok txt -> txt = ts value.
Proof.
  unfold Move.timestr. destruct (Move.truediv_100_overflows value); [discriminate|].
  now intros [= <-].
Qed.

Lemma timestr_cases ts value :
  Move.timestr ts value =
  if Move.truediv_100_overflows value then Raise OverflowError else Ok (ts value).
Proof. reflexivity. Qed.

Lemma format_evaluation_cases sh (m : Move.t) :
  Move.format_evaluation sh m =
  if eval_overflows m then Raise OverflowError else Ok (Move.evaluation_text sh m).
Proof.
  unfold Move.format_evaluation, eval_overflows, MoveAnalysis.bool.
  destruct (MoveAnalysis.mate (Move.analysis m)),
    (MoveAnalysis.eval (Move.analysis m)); cbn;
    try reflexivity;
    repeat match goal with |- context [if ?b then _ else _] => destruct b end;
    reflexivity.
Qed.

(** One turn of the loop raises [OverflowError] when a conversion of the row
    overflows, and gives the row otherwise. *)
Lemma render_row_cases ts sh ha k w b :
  Game.render_row ts sh ha k w b =
  if row_overflows ha (w, b) then Raise OverflowError
  else Ok (Game.move_row ts sh ha k w b).
Proof.
  unfold Game.render_row, row_overflows, Move.clock. cbv zeta. cbn [fst snd].
  rewrite !timestr_cases, !format_evaluation_cases.
  destruct b as [b|].
  - destruct (Move.truediv_100_overflows (Move.clock_centosec w)),
      (String.eqb (Move.san b) ""),
      (Move.truediv_100_overflows (Move.clock_centosec b)),
      ha, (eval_overflows w), (eval_overflows b); reflexivity.
  - destruct (Move.truediv_100_overflows (Move.clock_centosec w)),
      ha, (eval_overflows w); reflexivity.
Qed.

Lemma render_rows_cases ts sh ha (pairs : list (Move.t * option Move.t)) :
  forall k,
    Game.render_rows ts sh ha k pairs =
    if existsb (row_overflows ha) pairs then Raise OverflowError
    else Ok (Game.moves_info ts sh ha k pairs).
Proof.
  induction pairs as [|[w b] pairs IH]; intros k; [reflexivity|].
  cbn [Game.render_rows Game.moves_info existsb]. rewrite render_row_cases.
  destruct (row_overflows ha (w, b)); [reflexivity|].
  rewrite bind_Ok_l, IH. cbn [orb].
  now destruct (existsb (row_overflows ha) pairs).
Qed.

Lemma render_rows_Ok ts sh ha k pairs txt :
  Game.render_rows ts sh ha k pairs = Ok txt ->
  existsb (row_overflows ha) pairs = false
  /\ txt = Game.moves_info ts sh ha k pairs.
Proof.
  rewrite render_rows_cases.
  destruct (existsb (row_overflows ha) pairs); [discriminate|].
  now intros [= <-].
Qed.

(** The parts of a report that was returned. *)
Lemma to_console_parts ts sh E (g : Game.t) (out : string) :
  Game.to_console ts sh E g = Ok out ->
  exists sw sb ending board diagram uci,
    existsb (row_overflows (Game.has_analysis g)) (Game.moves g) = false
    /\ Game.game_ending_info g = Ok (sw, sb, ending)
    /\ Game.board_at_end E g = Ok (board, diagram)
    /\ last_item (chess.move_stack board) = Ok uci
    /\ out = Game.summary g sw sb
             +:+ Game.moves_info ts sh (Game.has_analysis g) 1 (Game.moves g) +:+ NL
             +:+ "*** " +:+ ending +:+ " ***" +:+ NL
             +:+ NL +:+ Game.phase_info g
             +:+ NL +:+ "Final position:" +:+ NL
             +:+ diagram +:+ "   "
             +:+ "GIF: https://lichess.org/export/fen.gif?fen="
             +:+ quote_plus (chess.board_fen E (chess.position board))
             +:+ "&lastMove=" +:+ uci +:+ NL
             +:+ NL
             +:+ "Game URL: https://lichess.org/" +:+ Game.id g +:+ NL
             +:+ NL.
Proof.
  unfold Game.to_console. intros H.
  apply bind_Ok in H as (txt & Hrows & H). cbv beta iota zeta in H.
  apply render_rows_Ok in Hrows as [Hfits ->].
  apply bind_Ok in H as ([[sw sb] ending] & Hend & H). cbv beta iota zeta in H.
  apply bind_Ok in H as ([board diagram] & Hboard & H). cbv beta iota zeta in H.
  apply bind_Ok in H as (uci & Hlast & H). cbv beta iota zeta in H.
  injection H as <-.
  exists sw, sb, ending, board, diagram, uci. repeat (split; [assumption|]).
  rewrite !append_assoc. reflexivity.
Qed.

Lemma to_console_Ok ts sh E (g : Game.t) (out : string) :
  Game.to_console ts sh E g = Ok out ->
  exists sw sb ending rest,
    Game.game_ending_info g = Ok (sw, sb, ending)
    /\ out = Game.summary g sw sb
             +:+ Game.moves_info ts sh (Game.has_analysis g) 1 (Game.moves g) +:+ NL
             +:+ "*** " +:+ ending +:+ " ***" +:+ NL
             +:+ NL +:+ Game.phase_info g +:+ rest.
Proof.
  intros H.
  apply to_console_parts in H
    as (sw & sb & ending & board & diagram & uci & _ & Hend & _ & _ & ->).
  exists sw, sb, ending. eexists. split; [exact Hend|]. reflexivity.
Qed.

Lemma prefix_step (a p x y : string) : x = p +:+ y -> a +:+ x = (a +:+ p) +:+ y.
Proof. intros ->. now rewrite append_assoc. Qed.

Lemma summary_score_line (g : Game.t) (sw sb : string) :
  exists pre post,
    Game.summary g sw sb =
    pre +:+ "  Score..............: " +:+ sw
    +:+ "                  Score..............: " +:+ sb +:+ NL +:+ post.
Proof.
  unfold Game.summary. destruct (Game.players g) as [pw pb].
  rewrite !append_assoc. do 2 eexists.
  do 18 (apply prefix_step). exact (eq_sym (append_nil_l _)).
Qed.

(** C8.  The two score strings depend on the winner field alone: "1" and "0"
    for white, "0" and "1" for black, and "½" twice when there is no winner,
    whatever the status; the result block returns them for every game
    without winner and for every game with a winner whose status has a
    phrase, and they are the strings the report shows on its score line. *)
Theorem score_strings_follow_winner :
  (forall g sw sb ending,
     Game.game_ending_info g = Ok (sw, sb, ending) ->
     (sw, sb) = scores_of_winner (Game.winner g))
  /\ (forall g, Game.winner g = None ->
        exists ending, Game.game_ending_info g = Ok ("½", "½", ending))
  /\ (forall g, Game.winner g = Some WHITE -> (Game.status g ∈ known_statuses) ->
        exists ending, Game.game_ending_info g = Ok ("1", "0", ending))
  /\ (forall g, Game.winner g = Some BLACK -> (Game.status g ∈ known_statuses) ->
        exists ending, Game.game_ending_info g = Ok ("0", "1", ending))
  /\ (forall ts sh E g out,
        Game.to_console ts sh E g = Ok out ->
        exists pre post,
          out = pre +:+ "  Score..............: " +:+ (scores_of_winner (Game.winner g)).1
                +:+ "                  Score..............: "
                +:+ (scores_of_winner (Game.winner g)).2 +:+ NL +:+ post)
  /\ scores_of_winner (Some WHITE) = ("1", "0")
  /\ scores_of_winner (Some BLACK) = ("0", "1")
  /\ scores_of_winner None = ("½", "½").
Proof.
  assert (Hscores : forall g sw sb ending,
     Game.game_ending_info g = Ok (sw, sb, ending) ->
     (sw, sb) = scores_of_winner (Game.winner g)).
  { intros g sw sb ending. unfold Game.game_ending_info.
    destruct (Game.winner g) as [[|]|]; cbv beta iota zeta; intros H.
    - apply bind_Ok in H as (e & _ & H). now injection H as <- <- _.
    - apply bind_Ok in H as (e & _ & H). now injection H as <- <- _.
    - now injection H as <- <- _. }
  assert (Hknown : forall g w, Game.winner g = Some w ->
            (Game.status g ∈ known_statuses) ->
            exists ending,
              Game.game_ending_info g =
              Ok ((scores_of_winner (Some w)).1, (scores_of_winner (Some w)).2,
                  ending)).
  { intros g w Hw Hin. unfold Game.game_ending_info. rewrite Hw.
    unfold known_statuses, Game.pretty_endings in Hin. cbn in Hin.
    repeat (apply elem_of_cons in Hin as [Hin|Hin];
            [rewrite Hin; destruct w; eexists; reflexivity|]).
    now apply elem_of_nil in Hin. }
  split; [exact Hscores|].
  split; [|split; [|split; [|split; [|repeat split]]]].
  - intros g Hw. unfold Game.game_ending_info. rewrite Hw. eexists. reflexivity.
  - intros g Hw Hin. exact (Hknown g WHITE Hw Hin).
  - intros g Hw Hin. exact (Hknown g BLACK Hw Hin).
  - intros ts sh E g out Hout.
    apply to_console_Ok in Hout as (sw & sb & ending & rest & Hend & ->).
    apply Hscores in Hend. rewrite <- Hend. cbn [fst snd].
    destruct (summary_score_line g sw sb) as (pre & post & ->).
    exists pre. eexists. rewrite !append_assoc. reflexivity.
Qed.

(** ** The phase lines *)

(** C2 (the code departs from it).  For a boundary at ply 40 the phase line
    gives move 21 and the side black, in the report as well, and for a
    boundary at ply 0 no line is written at all; ply 1 gives move 1 and the
    side white. *)
Theorem phase_line_of_even_ply :
  Game.phase_line "Middlegame" (Some 40) = "Middlegame started at move 21 (black)" +:+ NL
  /\ Game.phase_line "Endgame" (Some 40) = "Endgame started at move 21 (black)" +:+ NL
  /\ Game.phase_line "Middlegame" (Some 0) = ""
  /\ Game.phase_line "Middlegame" (Some 1) = "Middlegame started at move 1 (white)" +:+ NL
  /\ (forall ts sh E g out,
        Division.middle (Game.division g) = Some 40 ->
        Game.to_console ts sh E g = Ok out ->
        exists pre post,
          out = pre +:+ "Middlegame started at move 21 (black)" +:+ NL +:+ post).
Proof.
  repeat split.
  intros ts sh E g out Hmid Hout.
  apply to_console_Ok in Hout as (sw & sb & ending & rest & _ & ->).
  unfold Game.phase_info. rewrite Hmid.
  exists (Game.summary g sw sb
          +:+ Game.moves_info ts sh (Game.has_analysis g) 1 (Game.moves g) +:+ NL
          +:+ "*** " +:+ ending +:+ " ***" +:+ NL +:+ NL),
         (Game.phase_line "Endgame" (Division.end_ (Game.division g)) +:+ rest).
  change (Game.phase_line "Middlegame" (Some 40))
    with ("Middlegame started at move 21 (black)" +:+ NL).
  now rewrite !append_assoc.
Qed.

(** What the phase line of a boundary says. *)
Lemma phase_line_spec (phase : string) (ply : Z) :
  Game.phase_line phase (Some ply) =
  if (ply =? 0)%Z then ""
  else phase +:+ " started at move " +:+ str_of_Z (ply / 2 + 1) +:+ " ("
       +:+ (if Z.even ply then "black" else "white") +:+ ")" +:+ NL.
Proof.
  unfold Game.phase_line. destruct (ply =? 0)%Z; [reflexivity|]. cbv beta iota zeta.
  rewrite Zmod_even. now destruct (Z.even ply).
Qed.

Lemma phase_line_text (phase : string) (boundary : option Z) :
  Game.phase_line phase boundary = phase_text phase boundary.
Proof. destruct boundary as [ply|]; [apply phase_line_spec | reflexivity]. Qed.

(** X1.  The phase lines of a report.  In every report the renderer returns,
    the result line and the blank line after it are followed by the line of
    the middlegame, then the line of the endgame, then a blank line and the
    final position; the line of a phase is missing when its boundary is
    absent or 0, and says otherwise the move [ply // 2 + 1], with the side
    black for an even ply and white for an odd one. *)
Theorem report_phase_lines ts sh E (g : Game.t) (out : string) :
  Game.to_console ts sh E g = Ok out ->
  exists pre post,
    out = pre +:+ " ***" +:+ NL +:+ NL
          +:+ phase_text "Middlegame" (Division.middle (Game.division g))
          +:+ phase_text "Endgame" (Division.end_ (Game.division g))
          +:+ NL +:+ "Final position:" +:+ NL +:+ post.
Proof.
  intros H.
  apply to_console_parts in H
    as (sw & sb & ending & board & diagram & uci & _ & _ & _ & _ & ->).
  unfold Game.phase_info. rewrite !phase_line_text, !append_assoc.
  eexists. eexists.
  do 5 (apply prefix_step). exact (eq_sym (append_nil_l _)).
Qed.

Lemma report_phase_lines_witness :
  exists out,
    Game.to_console sample_timestr sample_timestr sample_engine game_with_middlegame
    = Ok out
    /\ exists pre post,
         out = pre +:+ " ***" +:+ NL +:+ NL
               +:+ phase_text "Middlegame" (Some 40)
               +:+ phase_text "Endgame" None
               +:+ NL +:+ "Final position:" +:+ NL +:+ post.
Proof.
  eexists. split; [vm_compute; reflexivity|].
  exact (report_phase_lines sample_timestr sample_timestr sample_engine
           game_with_middlegame _ eq_refl).
Defined.

(** C3 (the code departs from it).  With a winner and a status outside the
    table, building the result line raises [KeyError], and so does the whole
    rendering; a parsed record that gives a winner and no status is such a
    game, through the default status "N/A" of the parser. *)
Theorem unmapped_status_raises :
  Game.game_ending_info game_left_by_black = Raise (KeyError "timeout")
  /\ (forall ts sh E,
        Game.to_console ts sh E game_left_by_black = Raise (KeyError "timeout"))
  /\ (forall ts sh E,
        create_game_from_json record_won_without_status ≫= Game.to_console ts sh E
        = Raise (KeyError "N/A")).
Proof. repeat split. Qed.

(** X2.  With a winner and one of the five status codes of the table, the
    result line names the winner, the loser and the phrase of the code:
    "draw", "stalemate", "was checkmated", "resigned", "ran out of time". *)
Theorem known_status_phrases (g : Game.t) (w : Color) (code phrase : string) :
  Game.winner g = Some w ->
  Game.status g = code ->
  (code, phrase) ∈ Game.pretty_endings ->
  Game.game_ending_info g =
  Ok ((scores_of_winner (Some w)).1, (scores_of_winner (Some w)).2,
      capitalize (value w) +:+ " wins: "
      +:+ value (match w with WHITE => BLACK | BLACK => WHITE end)
      +:+ " " +:+ phrase).
Proof.
  intros Hw Hs Hin. unfold Game.game_ending_info. rewrite Hw, Hs.
  unfold Game.pretty_endings in Hin.
  repeat (apply elem_of_cons in Hin as [Hin|Hin];
          [injection Hin as -> ->; now destruct w|]).
  now apply elem_of_nil in Hin.
Qed.

Lemma known_status_phrases_witness :
  Game.game_ending_info (sample_game (Some BLACK) "resign" None [])
  = Ok ("0", "1", "Black wins: white resigned").
Proof.
  refine (known_status_phrases (sample_game (Some BLACK) "resign" None [])
            BLACK "resign" "resigned" eq_refl eq_refl _).
  unfold Game.pretty_endings. do 3 apply list_elem_of_further.
  apply list_elem_of_here.
Defined.

(** ** The winner field *)

Lemma parsed_winner (r : json) (g : Game.t) :
  create_game_from_json r = Ok g ->
  exists winner_str,
    get r "winner" (JStr "") = Ok winner_str
    /\ Game.winner g =
       if eq_str winner_str "black" then Some BLACK
       else if eq_str winner_str "white" then Some WHITE
       else None.
Proof.
  unfold create_game_from_json. intros H. peel H.
  injection H as <-. cbn [Game.winner]. eauto.
Qed.



(** ** Pairing the plies *)

Lemma list_pair_ind {A} (P : list A -> Prop) :
  P [] -> (forall x, P [x]) -> (forall x y l, P l -> P (x :: y :: l)) ->
  forall l, P l.
Proof.
  intros H0 H1 H2.
  assert (H : forall l, P l /\ forall x, P (x :: l)).
  { induction l as [|y l [IH1 IH2]]; split; auto. }
  intros l. apply H.
Qed.

Lemma pair_up_length (ms : list Move.t) :
  length (pair_up ms) = ((length ms + 1) / 2)%nat.
Proof.
  induction ms as [| x | x y l IH] using list_pair_ind; [reflexivity..|].
  cbn [pair_up length]. rewrite IH.
  replace (S (S (length l)) + 1)%nat with ((length l + 1) + 1 * 2)%nat by lia.
  rewrite Nat.div_add by lia. lia.
Qed.

Lemma pair_up_lookup (ms : list Move.t) (k : nat) (w : Move.t) (b : option Move.t) :
  pair_up ms !! k = Some (w, b) <->
  ms !! (2 * k)%nat = Some w /\ b = ms !! (2 * k + 1)%nat.
Proof.
  revert k. induction ms as [| x | x y l IH] using list_pair_ind; intros k.
  - cbn [pair_up]. split; [intros H | intros [H _]]; now rewrite lookup_nil in H.
  - cbn [pair_up]. destruct k as [|k].
    + cbn. split; [intros [= <- <-] | intros [[= <-] ->]]; auto.
    + split; [intros H | intros [H _]].
      * cbn in H. now try rewrite lookup_nil in H.
      * replace (2 * S k)%nat with (S (S (2 * k))) in H by lia.
        cbn in H. now try rewrite lookup_nil in H.
  - destruct k as [|k]; cbn [pair_up].
    + cbn. split; [intros [= <- <-] | intros [[= <-] ->]]; auto.
    + replace (2 * S k)%nat with (S (S (2 * k))) by lia.
      replace (S (S (2 * k)) + 1)%nat with (S (S (2 * k + 1))) by lia.
      cbn [lookup list_lookup]. apply IH.
Qed.

Lemma pair_up_last (ms : list Move.t) (w : Move.t) (b : option Move.t) :
  last (pair_up ms) = Some (w, b) -> (b = None <-> Nat.Odd (length ms)).
Proof.
  induction ms as [| x | x y l IH] using list_pair_ind.
  - discriminate.
  - cbn. intros [= <- <-]. split; [intros _; now exists 0%nat | reflexivity].
  - cbn [pair_up length]. destruct l as [|z l'].
    + cbn. intros [= <- <-]. split; [discriminate|].
      intros [n Hn]. lia.
    + intros H. rewrite last_cons in H.
      destruct (last (pair_up (z :: l'))) as [p|] eqn:Hl.
      * rewrite (IH H). rewrite !Nat.Odd_succ, Nat.Even_succ. reflexivity.
      * apply last_None in Hl. destruct l'; discriminate.
Qed.

Lemma plies_pair_up (ms : list Move.t) : plies (pair_up ms) = ms.
Proof.
  induction ms as [| x | x y l IH] using list_pair_ind; [reflexivity..|].
  cbn. now rewrite IH.
Qed.

(** The loop of the parser is the pairing of the moves of the plies, and it
    raises what reading the plies raises. *)
Lemma pair_moves_plies ha clocks an (sans : list string) :
  forall idx moves mw,
    pair_moves ha clocks an idx sans moves mw ≫= (fun s => Ok (finish s.1 s.2)) =
    plies_from_json ha clocks an idx sans ≫=
      (fun ms => Ok (moves ++ pair_up (option_list mw ++ ms))%list).
Proof.
  induction sans as [|san sans IH]; intros idx moves mw.
  - cbn. destruct mw; cbn; [reflexivity | now rewrite app_nil_r].
  - cbn [pair_moves plies_from_json].
    destruct (move_from_json ha clocks an idx san) as [move|e]; [|reflexivity].
    cbn [mbind result_bind]. destruct mw as [white|].
    + rewrite IH.
      destruct (plies_from_json ha clocks an (S idx) sans) as [ms|e]; [|reflexivity].
      cbn. now rewrite <- app_assoc.
    + rewrite IH.
      destruct (plies_from_json ha clocks an (S idx) sans) as [ms|e]; reflexivity.
Qed.

Lemma pair_moves_Ok ha clocks an sans moves mw :
  pair_moves ha clocks an 0 sans [] None = Ok (moves, mw) ->
  exists ms, plies_from_json ha clocks an 0 sans = Ok ms
             /\ finish moves mw = pair_up ms.
Proof.
  intros H. pose proof (pair_moves_plies ha clocks an sans 0%nat [] None) as E.
  rewrite H in E. cbn in E.
  destruct (plies_from_json ha clocks an 0 sans) as [ms|e]; [|discriminate].
  injection E as E. eauto.
Qed.

Lemma plies_from_json_Ok ha clocks an (sans : list string) :
  forall idx ms,
    plies_from_json ha clocks an idx sans = Ok ms ->
    length ms = length sans
    /\ forall k san, sans !! k = Some san ->
         exists m, ms !! k = Some m
                   /\ move_from_json ha clocks an (idx + k) san = Ok m.
Proof.
  induction sans as [|san sans IH]; intros idx ms H.
  - injection H as <-. split; [reflexivity|]. intros k s Hk.
    now rewrite lookup_nil in Hk.
  - cbn [plies_from_json] in H.
    apply bind_Ok in H as (m0 & Hm0 & H). apply bind_Ok in H as (ms0 & Hms0 & H).
    injection H as <-.
    apply IH in Hms0 as [Hlen Hk]. split; [cbn; now rewrite Hlen|].
    intros [|k] s Hs.
    + injection Hs as <-. exists m0. now rewrite Nat.add_0_r.
    + cbn in Hs. destruct (Hk k s Hs) as (m & Hm & Hmove).
      exists m. split; [exact Hm|]. now rewrite <- Nat.add_succ_comm.
Qed.

Lemma move_from_json_san ha clocks an idx san m :
  move_from_json ha clocks an idx san = Ok m -> Move.san m = san.
Proof. unfold move_from_json. intros H. peel H. now injection H as <-. Qed.

(** The moves of a parsed game: the plies of the move text, paired. *)
Lemma parsed_moves (r : json) (g : Game.t) :
  create_game_from_json r = Ok g ->
  exists m sans clocks an ms,
    getitem r "moves" = Ok m
    /\ split_spaces m = Ok sans
    /\ getitem r "clocks" = Ok clocks
    /\ get r "analysis" JNull = Ok an
    /\ plies_from_json (detect_analysis r) clocks an 0 sans = Ok ms
    /\ Game.has_analysis g = detect_analysis r
    /\ Game.moves g = pair_up ms.
Proof.
  unfold create_game_from_json. intros H.
  do 6 (apply bind_Ok in H as (? & _ & H)).
  apply bind_Ok in H as (m & Hm & H).
  apply bind_Ok in H as (sans & Hsans & H).
  apply bind_Ok in H as (clocks & Hclocks & H).
  apply bind_Ok in H as (an & Han & H).
  apply bind_Ok in H as ([moves mw] & Hloop & H). cbv beta iota zeta in H.
  peel H. injection H as <-. cbn [Game.moves Game.has_analysis].
  apply pair_moves_Ok in Hloop as (ms & Hms & Hfin).
  exists m, sans, clocks, an, ms. unfold finish in Hfin. auto 10.
Qed.

(** C7 (the code departs from it).  The record of a game without plies has
    the empty move text, and the parser reads one ply of empty notation from
    it: with a clock sample it stores one pair, where [⌈0/2⌉] is none, and
    without clock sample it raises. *)
Theorem zero_plies_give_a_pair :
  getitem (record_without_moves [30000]) "moves" = Ok (JStr "")
  /\ (exists g,
        create_game_from_json (record_without_moves [30000]) = Ok g
        /\ Game.moves g = [(Move.make "" 30000 0 MoveAnalysis.default, None)]
        /\ length (Game.moves g) = 1%nat)
  /\ create_game_from_json (record_without_moves []) = Raise IndexError.
Proof.
  split; [reflexivity|]. split; [|reflexivity].
  eexists. split; [reflexivity|]. split; reflexivity.
Qed.

(** X20.  The moves of a parsed game are the pieces of the move text, split
    at the single spaces, grouped two by two: for [N] pieces there are
    [⌈N/2⌉] pairs, the pair [k] holds the piece [2k] (a move of white) first
    and the piece [2k + 1] second, and the last pair lacks its second move
    exactly when [N] is odd. *)
Theorem move_pairs_shape (r : json) (g : Game.t) (s : string) :
  create_game_from_json r = Ok g ->
  getitem r "moves" = Ok (JStr s) ->
  let sans := split " " s in
  let N := length sans in
  length (Game.moves g) = ((N + 1) / 2)%nat
  /\ (forall k w b,
        Game.moves g !! k = Some (w, b) ->
        sans !! (2 * k)%nat = Some (Move.san w)
        /\ Move.san <$> b = sans !! (2 * k + 1)%nat)
  /\ (forall w b, last (Game.moves g) = Some (w, b) -> (b = None <-> Nat.Odd N))
  /\ Move.san <$> plies (Game.moves g) = sans.
Proof.
  intros Hparse Hmoves sans N.
  destruct (parsed_moves r g Hparse)
    as (m & sans' & clocks & an & ms & Hm & Hsplit & _ & _ & Hplies & _ & Hpairs).
  rewrite Hmoves in Hm. injection Hm as <-. injection Hsplit as <-.
  fold sans in Hplies.
  destruct (plies_from_json_Ok _ _ _ _ _ _ Hplies) as [Hlen Hk].
  assert (Hsan : forall i m, ms !! i = Some m -> sans !! i = Some (Move.san m)).
  { intros i m Hi.
    destruct (sans !! i) as [san|] eqn:Hs.
    - destruct (Hk i san Hs) as (m' & Hm' & Hmove).
      rewrite Hi in Hm'. injection Hm' as <-.
      now rewrite (move_from_json_san _ _ _ _ _ _ Hmove).
    - apply lookup_ge_None in Hs. apply lookup_lt_Some in Hi. lia. }
  rewrite Hpairs. repeat split.
  - rewrite pair_up_length. now rewrite Hlen.
  - apply pair_up_lookup in H as [Hw _]. now apply Hsan.
  - apply pair_up_lookup in H as [_ ->].
    destruct (ms !! (2 * k + 1)%nat) as [mb|] eqn:Hb; cbn.
    + symmetry. now apply Hsan.
    + symmetry. apply lookup_ge_None. apply lookup_ge_None in Hb. lia.
  - intros ->. apply pair_up_last in H. unfold N. rewrite <- Hlen. now apply H.
  - intros Hodd. apply pair_up_last in H. apply H. now rewrite Hlen.
  - rewrite plies_pair_up. apply list_eq. intros i. rewrite list_lookup_fmap.
    destruct (ms !! i) as [m|] eqn:Hi; cbn.
    + symmetry. now apply Hsan.
    + symmetry. apply lookup_ge_None. apply lookup_ge_None in Hi. lia.
Qed.

Lemma move_pairs_shape_witness :
  exists g,
    create_game_from_json record_three_plies = Ok g
    /\ length (Game.moves g) = 2%nat
    /\ Move.san <$> plies (Game.moves g) = ["e4"; "e5"; "Nf3"].
Proof.
  eexists. split; [reflexivity|].
  pose proof (move_pairs_shape record_three_plies _ "e4 e5 Nf3" eq_refl eq_refl) as H.
  exact (conj (proj1 H) (proj2 (proj2 (proj2 H)))).
Defined.

(** ** Thinking time *)

(** C1 (the code departs from it).  On three plies with the clock samples
    30000, 30000 and 29900 the parser stores the thinking times 0, 0 and
    -100: for the third ply it subtracts the earlier sample from the later
    one, where the time spent is 30000 - 29900 = 100. *)
Theorem thinking_time_of_third_ply :
  exists g,
    create_game_from_json record_three_plies = Ok g
    /\ Move.clock_centosec <$> plies (Game.moves g) = [30000; 30000; 29900]
    /\ Move.thinking_time_centoseconds <$> plies (Game.moves g) = [0; 0; -100].
Proof. eexists. repeat split. Qed.

Lemma move_from_json_clock ha clocks an idx san m :
  move_from_json ha clocks an idx san = Ok m ->
  getindex clocks idx = Ok (JInt (Move.clock_centosec m))
  /\ ((idx < 2)%nat -> Move.thinking_time_centoseconds m = 0)
  /\ ((2 <= idx)%nat ->
      exists b y, getindex clocks (idx - 2) = Ok b /\ as_number b = Some y
                  /\ Move.thinking_time_centoseconds m = Move.clock_centosec m - y).
Proof.
  unfold move_from_json. intros H.
  apply bind_Ok in H as (t & Ht & H). apply bind_Ok in H as (ma & _ & H).
  apply bind_Ok in H as (c & Hc & H). apply bind_Ok in H as (cc & Hcc & H).
  injection H as <-. cbn [Move.clock_centosec Move.thinking_time_centoseconds].
  destruct c; try discriminate. injection Hcc as <-.
  split; [exact Hc|]. destruct (Nat.leb_spec 2 idx) as [Hle|Hlt].
  - split; [lia|]. intros _. peel Ht. rewrite Hc in Hv. injection Hv as <-.
    unfold sub in Hv1. cbn [as_number] in Hv1.
    destruct (as_number v0) as [y|] eqn:Hy; [|discriminate].
    injection Hv1 as <-. injection Ht as <-. eauto.
  - split; [|lia]. intros _. now injection Ht as <-.
Qed.

(** X3.  What the parser stores as the thinking time of a ply: 0 for the
    first two plies, and from then on the clock sample of the ply minus the
    sample of the ply two before it; the clock of a ply is its sample. *)
Theorem parsed_thinking_time (r : json) (g : Game.t) (i : nat) (m : Move.t) :
  create_game_from_json r = Ok g ->
  plies (Game.moves g) !! i = Some m ->
  (exists clocks, getitem r "clocks" = Ok clocks
                  /\ getindex clocks i = Ok (JInt (Move.clock_centosec m)))
  /\ ((i < 2)%nat -> Move.thinking_time_centoseconds m = 0)
  /\ ((2 <= i)%nat ->
      exists m', plies (Game.moves g) !! (i - 2)%nat = Some m'
                 /\ Move.thinking_time_centoseconds m
                    = Move.clock_centosec m - Move.clock_centosec m').
Proof.
  intros Hparse Hi.
  destruct (parsed_moves r g Hparse)
    as (mv & sans & clocks & an & ms & _ & _ & Hclocks & _ & Hplies & _ & Hpairs).
  rewrite Hpairs, plies_pair_up in *.
  destruct (plies_from_json_Ok _ _ _ _ _ _ Hplies) as [Hlen Hk].
  assert (Hmove : forall j mj, ms !! j = Some mj ->
            exists san, move_from_json (detect_analysis r) clocks an j san = Ok mj).
  { intros j mj Hj. destruct (sans !! j) as [san|] eqn:Hs.
    - destruct (Hk j san Hs) as (m' & Hm' & Hmv). rewrite Hj in Hm'.
      injection Hm' as <-. eauto.
    - apply lookup_ge_None in Hs. apply lookup_lt_Some in Hj. lia. }
  destruct (Hmove i m Hi) as (san & Hmv).
  destruct (move_from_json_clock _ _ _ _ _ _ Hmv) as (Hc & Hlt & Hge).
  split; [eauto|]. split; [exact Hlt|]. intros Hle.
  destruct (Hge Hle) as (b & y & Hb & Hy & Ht).
  destruct (ms !! (i - 2)%nat) as [m'|] eqn:Hi'.
  - exists m'. split; [reflexivity|].
    destruct (Hmove _ m' Hi') as (san' & Hmv').
    destruct (move_from_json_clock _ _ _ _ _ _ Hmv') as (Hc' & _).
    rewrite Hb in Hc'. injection Hc' as ->. cbn in Hy. injection Hy as <-. exact Ht.
  - apply lookup_ge_None in Hi'. apply lookup_lt_Some in Hi. lia.
Qed.

Lemma parsed_thinking_time_witness :
  exists g m,
    create_game_from_json record_three_plies = Ok g
    /\ plies (Game.moves g) !! 2%nat = Some m
    /\ Move.thinking_time_centoseconds m = -100.
Proof.
  eexists. eexists. split; [reflexivity|]. split; [reflexivity|].
  destruct (parsed_thinking_time record_three_plies _ 2%nat _ eq_refl eq_refl)
    as (_ & _ & H).
  destruct (H (le_n 2)) as (m' & Hm' & Ht).
  cbn in Hm'. injection Hm' as <-. exact Ht.
Defined.

(** ** A game without moves *)

Lemma append_to_line_cases (i : nat) (suffix : string) (lines : list string) :
  (exists lines', append_to_line i suffix lines = Ok lines')
  \/ append_to_line i suffix lines = Raise IndexError.
Proof. unfold append_to_line. destruct (lines !! i); eauto. Qed.

(** Replaying no move leaves the board as it was set up: the standard
    initial position, with nothing on the stack of moves. *)
Lemma board_at_end_without_moves E (g : Game.t) board diagram :
  Game.moves g = [] ->
  Game.board_at_end E g = Ok (board, diagram) ->
  board = chess.new E Game.start_positions /\ chess.move_stack board = [].
Proof.
  unfold Game.board_at_end. intros ->. cbn [Game.replay mbind result_bind].
  intros H. peel H. injection H as <- _. split; reflexivity.
Qed.

Lemma to_console_without_moves ts sh E (g : Game.t) :
  Game.moves g = [] ->
  (exists e, Game.game_ending_info g = Raise e
             /\ Game.to_console ts sh E g = Raise e)
  \/ Game.to_console ts sh E g = Raise IndexError.
Proof.
  intros Hmoves.
  assert (Hrows : Game.render_rows ts sh (Game.has_analysis g) 1 (Game.moves g)
                  = Ok "") by now rewrite Hmoves.
  unfold Game.to_console. rewrite Hrows, !bind_Ok_l.
  destruct (Game.game_ending_info g) as [[[sw sb] ending]|e]; [right | left; eauto].
  cbn [mbind result_bind]. cbv beta iota zeta.
  destruct (Game.board_at_end E g) as [[board diagram]|e] eqn:Hboard.
  - apply board_at_end_without_moves in Hboard as [-> _]; [|exact Hmoves].
    reflexivity.
  - unfold Game.board_at_end in Hboard. rewrite Hmoves in Hboard.
    cbn [Game.replay mbind result_bind] in Hboard.
    match type of Hboard with
    | context [append_to_line 3 ?s ?l] =>
        destruct (append_to_line_cases 3 s l) as [[l3 H3]|H3]; rewrite H3 in Hboard
    end; cbn [mbind result_bind] in Hboard.
    + match type of Hboard with
      | context [append_to_line 4 ?s ?l] =>
          destruct (append_to_line_cases 4 s l) as [[l4 H4]|H4]; rewrite H4 in Hboard
      end; cbn [mbind result_bind] in Hboard; [discriminate|].
      now injection Hboard as <-.
    + now injection Hboard as <-.
Qed.

(** C4 (the code departs from it).  Rendering a game without moves raises:
    the replay is a no-op, and the renderer then asks the empty stack of moves
    for its last one ([IndexError]).  A record whose move text is empty does
    not even parse to such a game: the parser reads one ply of empty notation
    from it, and fails on the missing clock sample. *)
Theorem rendering_without_moves_raises :
  (forall ts sh E g, Game.moves g = [] -> raises (Game.to_console ts sh E g))
  /\ (forall ts sh E, Game.to_console ts sh E game_without_moves = Raise IndexError)
  /\ create_game_from_json (record_without_moves []) = Raise IndexError
  /\ (exists g, create_game_from_json (record_without_moves [30000]) = Ok g
                /\ Move.san <$> plies (Game.moves g) = [""]).
Proof.
  split; [|split; [|split]].
  - intros ts sh E g Hmoves.
    destruct (to_console_without_moves ts sh E g Hmoves) as [(e & _ & H)|H];
      rewrite H; eexists; reflexivity.
  - intros ts sh E.
    destruct (to_console_without_moves ts sh E game_without_moves eq_refl)
      as [(e & He & _)|H]; [discriminate He | exact H].
  - reflexivity.
  - eexists. split; reflexivity.
Qed.

(** ** Detecting the analysis *)

(** C5 (the code departs from it).  In the record of an unanalysed game of
    the user "analysis_fan" no key "analysis" can be reached, and yet the
    parser takes the game as analysed, the word being part of the text of the
    record; it then asks for the length of the analysis list, which is
    missing, and raises [TypeError]. *)
Theorem analysis_detected_in_a_name :
  analysis_field_reachable record_of_analysis_fan = false
  /\ detect_analysis record_of_analysis_fan = true
  /\ create_game_from_json record_of_analysis_fan = Raise TypeError.
Proof. repeat split. Qed.

(** ** Reading well-formed records *)

















(** Without its clock sample a ply cannot be read. *)
Lemma move_from_json_short ha (cl : list json) an idx san :
  (length cl <= idx)%nat ->
  raises (move_from_json ha (JList cl) an idx san).
Proof.
  intros Hlen. unfold move_from_json.
  assert (Hget : getindex (JList cl) idx = Raise IndexError).
  { cbn. now rewrite (proj2 (lookup_ge_None cl idx) Hlen). }
  destruct (2 <=? idx)%nat.
  - rewrite Hget. eexists; reflexivity.
  - rewrite bind_Ok_l. apply raises_bind_cont. intros ma _.
    rewrite Hget. eexists; reflexivity.
Qed.

Lemma plies_from_json_short ha (cl : list json) an (sans : list string) :
  forall idx, (idx <= length cl < idx + length sans)%nat ->
    raises (plies_from_json ha (JList cl) an idx sans).
Proof.
  induction sans as [|san sans IH]; intros idx Hlen.
  - cbn in Hlen. lia.
  - cbn [length] in Hlen. cbn [plies_from_json].
    apply raises_bind_cont. intros m Hm.
    destruct (Nat.le_gt_cases (length cl) idx) as [Hle|Hgt].
    + destruct (move_from_json_short ha cl an idx san Hle) as [e He].
      rewrite He in Hm. discriminate.
    + apply raises_bind. apply IH. lia.
Qed.


(** ** A reachable analysis field is detected *)

Lemma json_induction (P : json -> Prop) :
  P JNull -> (forall b, P (JBool b)) -> (forall n, P (JInt n)) ->
  (forall s, P (JStr s)) ->
  (forall l, Forall P l -> P (JList l)) ->
  (forall o, Forall (fun kv => P kv.2) o -> P (JObj o)) ->
  forall v, P v.
Proof.
  intros HNull HBool HInt HStr HList HObj.
  fix IH 1. intros [| b | n | s | l | o].
  - exact HNull.
  - apply HBool.
  - apply HInt.
  - apply HStr.
  - apply HList. induction l as [|x l IHl]; constructor; [apply IH | exact IHl].
  - apply HObj. induction o as [|[k x] o IHo]; constructor; [apply IH | exact IHo].
Qed.

Lemma startswith_app (p a b : string) :
  startswith p a = true -> startswith p (a +:+ b) = true.
Proof.
  revert a. induction p as [|c p IH]; intros a H; [reflexivity|].
  destruct a as [|d a]; [discriminate|]. rewrite append_cons. cbn in *.
  destruct (ascii_dec c d); [now apply IH | discriminate].
Qed.

Lemma contains_startswith (p s : string) :
  startswith p s = true -> contains p s = true.
Proof. intros H. destruct s; cbn [contains]; now rewrite H. Qed.

Lemma contains_app_l (p a b : string) :
  contains p a = true -> contains p (a +:+ b) = true.
Proof.
  induction a as [|c a IH]; cbn [contains]; intros H.
  - rewrite orb_false_r in H. apply contains_startswith.
    now apply (startswith_app p "" b).
  - rewrite append_cons. cbn [contains]. apply orb_true_iff in H as [H|H].
    + apply (startswith_app _ _ b) in H. rewrite append_cons in H. now rewrite H.
    + rewrite (IH H). apply orb_true_r.
Qed.

Lemma contains_app_r (p a b : string) :
  contains p b = true -> contains p (a +:+ b) = true.
Proof.
  intros H. induction a as [|c a IH]; [exact H|].
  rewrite append_cons. cbn [contains]. rewrite IH. apply orb_true_r.
Qed.

Lemma contains_join (p sep s : string) (l : list string) :
  In s l -> contains p s = true -> contains p (join sep l) = true.
Proof.
  intros Hin Hs. induction l as [|x l IH]; [destruct Hin|].
  cbn [join]. destruct Hin as [->|Hin].
  - destruct l; [exact Hs | now apply contains_app_l].
  - destruct l as [|y l]; [destruct Hin|].
    apply contains_app_r, contains_app_r. now apply IH.
Qed.

(** X4.  Wherever a key "analysis" can be reached in a record, the parser
    takes the game as analysed: the structural test implies the test on the
    text of the record (the converse fails, as the record of "analysis_fan"
    shows). *)
Theorem reachable_analysis_is_detected (v : json) :
  analysis_field_reachable v = true -> detect_analysis v = true.
Proof.
  unfold detect_analysis. induction v as [| b | n | s | l IH | o IH] using json_induction;
    cbn [analysis_field_reachable]; try discriminate; intros H.
  - apply existsb_exists in H as (x & Hx & Hr).
    cbn [json_dumps]. apply contains_app_r, contains_app_l.
    apply (contains_join _ _ (json_dumps x)); [now apply in_map|].
    exact (proj1 (List.Forall_forall _ _) IH x Hx Hr).
  - apply existsb_exists in H as ([k x] & Hx & Hr). cbn [fst snd] in Hr.
    cbn [json_dumps]. apply contains_app_r, contains_app_l.
    apply (contains_join _ _ (encode_string k +:+ ": " +:+ json_dumps x)).
    + exact (in_map (fun kv => encode_string kv.1 +:+ ": " +:+ json_dumps kv.2) o _ Hx).
    + apply orb_true_iff in Hr as [Hk|Hr].
      * apply String.eqb_eq in Hk as ->. now apply contains_app_l.
      * apply contains_app_r, contains_app_r.
        exact (proj1 (List.Forall_forall _ _) IH (k, x) Hx Hr).
Qed.

Lemma reachable_analysis_is_detected_witness :
  detect_analysis (JObj [("moves", JStr "e4"); ("analysis", JList [])]) = true.
Proof.
  exact (reachable_analysis_is_detected
           (JObj [("moves", JStr "e4"); ("analysis", JList [])]) eq_refl).
Defined.

(** * Further properties of the parser *)

Lemma split_nonempty (sep : ascii) (s : string) : split sep s <> [].
Proof.
  destruct s as [|c s]; cbn [split]; [discriminate|].
  destruct (ascii_dec c sep); [discriminate|]. now destruct (split sep s).
Qed.

Lemma join_split (sep : ascii) (s : string) :
  join (String sep "") (split sep s) = s.
Proof.
  induction s as [|c s IH]; [reflexivity|]. cbn [split].
  pose proof (split_nonempty sep s) as Hne.
  destruct (ascii_dec c sep) as [->|Hc].
  - destruct (split sep s) as [|w ws] eqn:Hs; [contradiction|].
    cbn [join]. cbn [join] in IH. rewrite IH. reflexivity.
  - destruct (split sep s) as [|w ws] eqn:Hs; [contradiction|].
    cbn [join] in *. destruct ws; [now rewrite <- IH|].
    rewrite append_cons. now rewrite IH.
Qed.

(** The plies of a parsed game are the moves read one by one from the move
    text of the record. *)
Lemma parsed_plies (r : json) (g : Game.t) :
  create_game_from_json r = Ok g ->
  exists m sans clocks an,
    getitem r "moves" = Ok m
    /\ split_spaces m = Ok sans
    /\ getitem r "clocks" = Ok clocks
    /\ get r "analysis" JNull = Ok an
    /\ plies_from_json (Game.has_analysis g) clocks an 0 sans = Ok (plies (Game.moves g))
    /\ length (plies (Game.moves g)) = length sans
    /\ forall i mv, plies (Game.moves g) !! i = Some mv ->
         exists san, sans !! i = Some san
                     /\ move_from_json (Game.has_analysis g) clocks an i san = Ok mv.
Proof.
  intros Hparse.
  destruct (parsed_moves r g Hparse)
    as (m & sans & clocks & an & ms & Hm & Hs & Hc & Han & Hplies & Hha & Hpairs).
  exists m, sans, clocks, an. rewrite Hpairs, plies_pair_up, Hha.
  destruct (plies_from_json_Ok _ _ _ _ _ _ Hplies) as [Hlen Hk].
  repeat split; auto.
  intros i mv Hi. destruct (sans !! i) as [san|] eqn:Hsan.
  - destruct (Hk i san Hsan) as (m' & Hm' & Hmv). rewrite Hi in Hm'.
    injection Hm' as <-. eauto.
  - apply lookup_ge_None in Hsan. apply lookup_lt_Some in Hi. lia.
Qed.

Lemma parsed_sans (r : json) (g : Game.t) (s : string) :
  create_game_from_json r = Ok g ->
  getitem r "moves" = Ok (JStr s) ->
  Move.san <$> plies (Game.moves g) = split " " s.
Proof.
  intros Hparse Hmoves.
  destruct (parsed_plies r g Hparse)
    as (m & sans & clocks & an & Hm & Hs & _ & _ & _ & Hlen & Hk).
  rewrite Hmoves in Hm. injection Hm as <-. injection Hs as <-.
  apply list_eq. intros i. rewrite list_lookup_fmap.
  destruct (plies (Game.moves g) !! i) as [mv|] eqn:Hi; cbn.
  - destruct (Hk i mv Hi) as (san & Hsan & Hmv).
    now rewrite (move_from_json_san _ _ _ _ _ _ Hmv).
  - symmetry. apply lookup_ge_None. apply lookup_ge_None in Hi. lia.
Qed.

(** X5.  The notations of the plies of a parsed game, joined by single
    spaces, give back the move text of the record, whatever that text is
    (also with doubled, leading or trailing spaces, which make plies of empty
    notation). *)
Theorem move_text_round_trip (r : json) (g : Game.t) (s : string) :
  create_game_from_json r = Ok g ->
  getitem r "moves" = Ok (JStr s) ->
  join " " (Move.san <$> plies (Game.moves g)) = s.
Proof.
  intros Hparse Hmoves. rewrite (parsed_sans r g s Hparse Hmoves).
  apply join_split.
Qed.

Lemma move_text_round_trip_witness :
  exists g,
    create_game_from_json record_three_plies = Ok g
    /\ join " " (Move.san <$> plies (Game.moves g)) = "e4 e5 Nf3".
Proof.
  eexists. split; [reflexivity|].
  exact (move_text_round_trip record_three_plies _ "e4 e5 Nf3" eq_refl eq_refl).
Defined.

(** X6.  A parsed game has at least one ply, and never more plies than the
    record has clock samples. *)
Theorem parsed_plies_bounds (r : json) (g : Game.t) (cl : list json) :
  create_game_from_json r = Ok g ->
  getitem r "clocks" = Ok (JList cl) ->
  (1 <= length (plies (Game.moves g)) <= length cl)%nat
  /\ Game.moves g <> [].
Proof.
  intros Hparse Hclocks.
  destruct (parsed_plies r g Hparse)
    as (m & sans & clocks & an & Hm & Hs & Hc & _ & Hplies & Hlen & _).
  rewrite Hclocks in Hc. injection Hc as <-.
  assert (Hsans : (1 <= length sans)%nat).
  { destruct m; try discriminate. injection Hs as <-.
    pose proof (split_nonempty " " s). destruct (split " " s); [contradiction|].
    cbn. lia. }
  assert (H1 : (1 <= length (plies (Game.moves g)) <= length cl)%nat).
  { split; [lia|]. rewrite Hlen.
    destruct (Nat.le_gt_cases (length sans) (length cl)) as [Hle|Hgt]; [exact Hle|].
    destruct (plies_from_json_short (Game.has_analysis g) cl an sans 0%nat
                ltac:(lia)) as [e He].
    rewrite He in Hplies. discriminate. }
  split; [exact H1|]. intros Hnil. rewrite Hnil in H1. cbn in H1. lia.
Qed.

Lemma parsed_plies_bounds_witness :
  exists g,
    create_game_from_json record_three_plies = Ok g
    /\ (1 <= length (plies (Game.moves g)) <= 3)%nat.
Proof.
  eexists. split; [reflexivity|].
  exact (proj1 (parsed_plies_bounds record_three_plies _ _ eq_refl eq_refl)).
Defined.

Lemma move_analysis_from_json_off an idx :
  move_analysis_from_json false an idx = Ok MoveAnalysis.default.
Proof. reflexivity. Qed.

Lemma move_from_json_analysis ha clocks an idx san m :
  move_from_json ha clocks an idx san = Ok m ->
  move_analysis_from_json ha an idx = Ok (Move.analysis m).
Proof.
  unfold move_from_json. intros H.
  apply bind_Ok in H as (t & _ & H). apply bind_Ok in H as (ma & Hma & H).
  apply bind_Ok in H as (c & _ & H). apply bind_Ok in H as (cc & _ & H).
  now injection H as <-.
Qed.

(** The two players of a parsed game, each read from the block of its side. *)
Lemma parsed_players (r : json) (g : Game.t) :
  create_game_from_json r = Ok g ->
  exists ps jw jb,
    getitem r "players" = Ok ps
    /\ getitem ps "white" = Ok jw
    /\ getitem ps "black" = Ok jb
    /\ player_from_json (Game.has_analysis g) WHITE jw = Ok (Game.players g).1
    /\ player_from_json (Game.has_analysis g) BLACK jb = Ok (Game.players g).2.
Proof.
  unfold create_game_from_json. intros H.
  apply bind_Ok in H as (ps & Hps & H). apply bind_Ok in H as (jw & Hjw & H).
  apply bind_Ok in H as (pw & Hpw & H). apply bind_Ok in H as (ps' & Hps' & H).
  apply bind_Ok in H as (jb & Hjb & H). apply bind_Ok in H as (pb & Hpb & H).
  rewrite Hps in Hps'. injection Hps' as <-.
  peel H. injection H as <-. cbn [Game.players Game.has_analysis fst snd].
  exists ps, jw, jb. auto.
Qed.

Lemma player_from_json_off c p pl :
  player_from_json false c p = Ok pl ->
  Player.analysis pl = PlayerGameAnalysis.default.
Proof.
  unfold player_from_json. rewrite bind_Ok_l. intros H. peel H.
  now injection H as <-.
Qed.

(** X7.  In a game parsed with the analysis flag off no move has an
    annotation and the two summaries of the players hold -1 four times,
    whatever the record carries. *)
Theorem unanalysed_game_has_no_annotation (r : json) (g : Game.t) :
  create_game_from_json r = Ok g ->
  Game.has_analysis g = false ->
  (forall m, m ∈ plies (Game.moves g) -> Move.analysis m = MoveAnalysis.default)
  /\ Player.analysis (Game.players g).1 = PlayerGameAnalysis.make (-1) (-1) (-1) (-1)
  /\ Player.analysis (Game.players g).2 = PlayerGameAnalysis.make (-1) (-1) (-1) (-1).
Proof.
  intros Hparse Hoff. split; [|split].
  - intros m Hin. apply list_elem_of_lookup in Hin as [i Hi].
    destruct (parsed_plies r g Hparse)
      as (mv & sans & clocks & an & _ & _ & _ & _ & _ & _ & Hk).
    destruct (Hk i m Hi) as (san & _ & Hmove).
    apply move_from_json_analysis in Hmove. rewrite Hoff in Hmove.
    rewrite move_analysis_from_json_off in Hmove. now injection Hmove as <-.
  - destruct (parsed_players r g Hparse) as (ps & jw & jb & _ & _ & _ & Hw & _).
    rewrite Hoff in Hw. exact (player_from_json_off _ _ _ Hw).
  - destruct (parsed_players r g Hparse) as (ps & jw & jb & _ & _ & _ & _ & Hb).
    rewrite Hoff in Hb. exact (player_from_json_off _ _ _ Hb).
Qed.

Lemma unanalysed_game_has_no_annotation_witness :
  exists g,
    create_game_from_json record_three_plies = Ok g
    /\ Player.analysis (Game.players g).1 = PlayerGameAnalysis.make (-1) (-1) (-1) (-1).
Proof.
  eexists. split; [reflexivity|].
  exact (proj1 (proj2 (unanalysed_game_has_no_annotation record_three_plies _
                         eq_refl eq_refl))).
Defined.

Lemma move_analysis_from_json_on (al : list json) idx ma :
  move_analysis_from_json true (JList al) idx = Ok ma ->
  ((length al <= idx)%nat -> ma = MoveAnalysis.default)
  /\ forall a, al !! idx = Some a -> annotation_of ma a.
Proof.
  unfold move_analysis_from_json. cbn [len]. rewrite bind_Ok_l.
  destruct (Nat.ltb_spec idx (length al)) as [Hlt|Hge].
  - intros H. split; [lia|]. intros a Ha.
    assert (Hget : getindex (JList al) idx = Ok a) by (cbn; now rewrite Ha).
    rewrite !Hget in H. rewrite bind_Ok_l in H.
    apply bind_Ok in H as (ve & Hve & H). apply bind_Ok in H as (ev & Hev & H).
    rewrite bind_Ok_l in H.
    apply bind_Ok in H as (vm & Hvm & H). apply bind_Ok in H as (mt & Hmt & H).
    rewrite bind_Ok_l in H.
    apply bind_Ok in H as (vb & Hvb & H). apply bind_Ok in H as (bs & Hbs & H).
    rewrite bind_Ok_l in H.
    apply bind_Ok in H as (vv & Hvv & H). apply bind_Ok in H as (vr & Hvr & H).
    rewrite bind_Ok_l in H.
    apply bind_Ok in H as (j & Hj & H). apply bind_Ok in H as (jd & Hjd & H).
    injection H as <-. unfold annotation_of.
    cbn [MoveAnalysis.eval MoveAnalysis.mate MoveAnalysis.best
         MoveAnalysis.variation MoveAnalysis.judgement].
    repeat (split; [eauto|]).
    exists j. split; [exact Hj|].
    destruct (truthy j) eqn:Htruthy.
    + rewrite bind_Ok_l in Hjd.
      apply bind_Ok in Hjd as (j1 & Hj1 & Hjd).
      apply bind_Ok in Hjd as (vn & Hvn & Hjd).
      apply bind_Ok in Hjd as (nm & Hnm & Hjd).
      rewrite bind_Ok_l in Hjd.
      apply bind_Ok in Hjd as (j2 & Hj2 & Hjd).
      apply bind_Ok in Hjd as (vc & Hvc & Hjd).
      apply bind_Ok in Hjd as (cm & Hcm & Hjd).
      injection Hjd as <-. cbn [Judgment.name Judgment.comment].
      assert (Hsame : j1 = j /\ j2 = j).
      { destruct a; try discriminate. cbn in Hj, Hj1, Hj2.
        destruct (assoc "judgment" o); [|discriminate].
        injection Hj as <-. injection Hj1 as <-. injection Hj2 as <-. auto. }
      destruct Hsame as [-> ->]. split; [reflexivity|]. split; eauto.
    + now injection Hjd as <-.
  - intros H. injection H as <-. split; [reflexivity|].
    intros a Ha. apply lookup_lt_Some in Ha. lia.
Qed.

(** X8.  In a game parsed with the analysis flag on, from a record whose
    analysis is a list: a ply beyond the end of the list has no annotation,
    and a ply within the list has the evaluation, mate count, best move and
    variation of its entry, and a judgment (name and comment) exactly when
    the entry has one that counts as true. *)
Theorem parsed_annotations (r : json) (g : Game.t) (al : list json)
    (i : nat) (m : Move.t) :
  create_game_from_json r = Ok g ->
  Game.has_analysis g = true ->
  get r "analysis" JNull = Ok (JList al) ->
  plies (Game.moves g) !! i = Some m ->
  ((length al <= i)%nat -> Move.analysis m = MoveAnalysis.default)
  /\ forall a, al !! i = Some a -> annotation_of (Move.analysis m) a.
Proof.
  intros Hparse Hon Hal Hi.
  destruct (parsed_plies r g Hparse)
    as (mv & sans & clocks & an & _ & _ & _ & Han & _ & _ & Hk).
  rewrite Hal in Han. injection Han as <-.
  destruct (Hk i m Hi) as (san & _ & Hmove).
  apply move_from_json_analysis in Hmove. rewrite Hon in Hmove.
  exact (move_analysis_from_json_on al i _ Hmove).
Qed.

Lemma parsed_annotations_witness :
  exists g m,
    create_game_from_json record_analysed = Ok g
    /\ plies (Game.moves g) !! 2%nat = Some m
    /\ Move.analysis m = MoveAnalysis.default.
Proof.
  eexists. eexists. split; [reflexivity|]. split; [reflexivity|].
  refine (proj1 (parsed_annotations record_analysed _ _ 2%nat _
                   eq_refl eq_refl eq_refl eq_refl) _).
  cbn. lia.
Defined.

Lemma player_from_json_copied ha c p pl :
  player_from_json ha c p = Ok pl ->
  Player.color pl = c /\ copied_from pl p.
Proof.
  unfold player_from_json. intros H.
  apply bind_Ok in H as (pa & _ & H).
  apply bind_Ok in H as (u & Hu & H). apply bind_Ok in H as (vn & Hvn & H).
  apply bind_Ok in H as (name & Hname & H).
  apply bind_Ok in H as (u' & Hu' & H). apply bind_Ok in H as (vi & Hvi & H).
  apply bind_Ok in H as (id & Hid & H).
  apply bind_Ok in H as (vr & Hvr & H). apply bind_Ok in H as (rating & Hrating & H).
  apply bind_Ok in H as (vd & Hvd & H). apply bind_Ok in H as (diff & Hdiff & H).
  injection H as <-. rewrite Hu in Hu'. injection Hu' as <-.
  destruct vn; try discriminate. injection Hname as <-.
  destruct vi; try discriminate. injection Hid as <-.
  destruct vr; try discriminate. injection Hrating as <-.
  destruct vd; try discriminate. injection Hdiff as <-.
  split; [reflexivity|]. exists u. cbn. auto.
Qed.

(** X9.  The first player of a parsed game is white and the second black,
    and each holds the name, id, rating and rating change of the block of
    its own side in the record. *)
Theorem parsed_players_sides (r : json) (g : Game.t) :
  create_game_from_json r = Ok g ->
  exists ps jw jb,
    getitem r "players" = Ok ps
    /\ getitem ps "white" = Ok jw
    /\ getitem ps "black" = Ok jb
    /\ Player.color (Game.players g).1 = WHITE
    /\ copied_from (Game.players g).1 jw
    /\ Player.color (Game.players g).2 = BLACK
    /\ copied_from (Game.players g).2 jb.
Proof.
  intros Hparse.
  destruct (parsed_players r g Hparse) as (ps & jw & jb & Hps & Hjw & Hjb & Hw & Hb).
  apply player_from_json_copied in Hw as [Hcw Hw].
  apply player_from_json_copied in Hb as [Hcb Hb].
  exists ps, jw, jb. auto 10.
Qed.

Lemma parsed_players_sides_witness :
  exists g,
    create_game_from_json record_three_plies = Ok g
    /\ exists ps jw jb,
         getitem record_three_plies "players" = Ok ps
         /\ getitem ps "white" = Ok jw
         /\ getitem ps "black" = Ok jb
         /\ Player.color (Game.players g).1 = WHITE
         /\ copied_from (Game.players g).1 jw
         /\ Player.color (Game.players g).2 = BLACK
         /\ copied_from (Game.players g).2 jb.
Proof.
  eexists. split; [reflexivity|].
  exact (parsed_players_sides record_three_plies _ eq_refl).
Defined.

(** X10.  A winner field that is exactly "white" gives the winner white, and
    one that is exactly "black" gives the winner black. *)
Theorem winner_text_is_the_winner (r : json) (g : Game.t) (c : Color) :
  create_game_from_json r = Ok g ->
  get r "winner" (JStr "") = Ok (JStr (value c)) ->
  Game.winner g = Some c.
Proof.
  intros Hparse Hget.
  destruct (parsed_winner r g Hparse) as (ws & Hws & Hwin).
  rewrite Hget in Hws. injection Hws as <-. rewrite Hwin. now destruct c.
Qed.

Lemma winner_text_is_the_winner_witness :
  exists g,
    create_game_from_json record_won_without_status = Ok g
    /\ Game.winner g = Some WHITE.
Proof.
  eexists. split; [reflexivity|].
  exact (winner_text_is_the_winner record_won_without_status _ WHITE eq_refl eq_refl).
Defined.

(** Going past the statements of the parser that come before the one that
    raises. *)
Ltac pass_bind :=
  apply raises_bind_cont;
  let a := fresh "a" in
  intros a _;
  try lazymatch type of a with
      | prod _ _ => destruct a as [? ?]
      end;
  cbv beta iota zeta.

Lemma block_read_by_subscript (o : list (string * json)) (block : string) :
  block ∈ ["opening"; "clock"; "division"] ->
  assoc block o = None ->
  raises (create_game_from_json (JObj o)).
Proof.
  intros Hin Hnone.
  assert (Hget : getitem (JObj o) block = Raise (KeyError block)).
  { cbn. now rewrite Hnone. }
  unfold create_game_from_json. cbv zeta.
  apply elem_of_cons in Hin as [->|Hin].
  { do 11 pass_bind. apply raises_bind. eexists. exact Hget. }
  apply elem_of_cons in Hin as [->|Hin].
  { do 20 pass_bind. apply raises_bind. eexists. exact Hget. }
  apply elem_of_cons in Hin as [->|Hin].
  { do 29 pass_bind. apply raises_bind. eexists. exact Hget. }
  now apply elem_of_nil in Hin.
Qed.

(** X11.  The opening, clock and division blocks are read by subscript: a
    record that lacks one of them makes the parser raise, although every
    field inside these blocks has a default. *)
Theorem missing_block_raises (o : list (string * json)) (block : string) :
  block ∈ ["opening"; "clock"; "division"] ->
  assoc block o = None ->
  raises (create_game_from_json (JObj o)).
Proof. exact (block_read_by_subscript o block). Qed.

Lemma missing_block_raises_witness :
  raises (create_game_from_json
            (JObj [("players", sample_players); ("moves", JStr "e4");
                   ("clocks", JList [JInt 30000]); ("opening", JObj []);
                   ("clock", JObj [])])).
Proof.
  apply (missing_block_raises _ "division").
  - do 2 apply list_elem_of_further. apply list_elem_of_here.
  - reflexivity.
Defined.

(** * The test for analysis, exactly *)

Lemma startswith_sep (p a b : string) (c : ascii) :
  occurs c p = false ->
  startswith p (a +:+ String c b) = startswith p a.
Proof.
  revert a. induction p as [|x p IH]; intros a Hc; [reflexivity|].
  cbn [occurs] in Hc. destruct (ascii_dec c x) as [|Hne]; [discriminate|].
  destruct a as [|y a].
  - rewrite append_nil_l. cbn [startswith].
    destruct (ascii_dec x c); [congruence | reflexivity].
  - rewrite append_cons. cbn [startswith].
    destruct (ascii_dec x y); [now apply IH | reflexivity].
Qed.

Lemma contains_empty (p : string) : p <> "" -> contains p "" = false.
Proof. destruct p; [congruence | reflexivity]. Qed.

Lemma contains_sep (p a b : string) (c : ascii) :
  occurs c p = false -> p <> "" ->
  contains p (a +:+ String c b) = contains p a || contains p b.
Proof.
  intros Hc Hp. induction a as [|y a IH].
  - rewrite append_nil_l, (contains_empty p Hp). cbn [contains orb].
    pose proof (startswith_sep p "" b c Hc) as H. rewrite append_nil_l in H.
    rewrite H. destruct p; [congruence | reflexivity].
  - rewrite append_cons. cbn [contains]. rewrite IH.
    pose proof (startswith_sep p (String y a) b c Hc) as H.
    rewrite append_cons in H. rewrite H. now rewrite orb_assoc.
Qed.

Lemma contains_around (p t : string) :
  foreign p t = true -> t <> "" -> p <> "" ->
  forall a b, contains p (a +:+ t +:+ b) = contains p a || contains p b.
Proof.
  intros Hf Ht Hp. induction t as [|c t IH]; [congruence|].
  cbn [foreign] in Hf. apply andb_true_iff in Hf as [Hc Hf].
  apply negb_true_iff in Hc. intros a b.
  rewrite append_cons, (contains_sep p a _ c Hc Hp).
  destruct t as [|d t]; [reflexivity|].
  specialize (IH Hf ltac:(discriminate) "" b).
  rewrite append_nil_l, (contains_empty p Hp) in IH. now rewrite IH.
Qed.

Lemma contains_after (p t b : string) :
  foreign p t = true -> t <> "" -> p <> "" ->
  contains p (t +:+ b) = contains p b.
Proof.
  intros Hf Ht Hp. pose proof (contains_around p t Hf Ht Hp "" b) as H.
  now rewrite append_nil_l, (contains_empty p Hp) in H.
Qed.

Lemma contains_before (p t a : string) :
  foreign p t = true -> t <> "" -> p <> "" ->
  contains p (a +:+ t) = contains p a.
Proof.
  intros Hf Ht Hp. pose proof (contains_around p t Hf Ht Hp a "") as H.
  now rewrite append_nil_r, (contains_empty p Hp), orb_false_r in H.
Qed.

Lemma contains_join_sep (p sep : string) (l : list string) :
  foreign p sep = true -> sep <> "" -> p <> "" ->
  contains p (join sep l) = existsb (contains p) l.
Proof.
  intros Hf Hs Hp. induction l as [|s l IH]; [now apply contains_empty|].
  cbn [join existsb]. destruct l as [|s' l].
  - cbn [existsb]. now rewrite orb_false_r.
  - now rewrite (contains_around p sep Hf Hs Hp), IH.
Qed.

Lemma contains_without_first (c : ascii) (p s : string) :
  occurs c s = false -> contains (String c p) s = false.
Proof.
  induction s as [|d s IH]; [reflexivity|]. cbn [occurs contains startswith].
  destruct (ascii_dec c d); [discriminate|]. intros H. now rewrite IH.
Qed.

(** A number is written with digits and a sign. *)
Lemma str_of_Z_no_letter (n : Z) : occurs "a" (str_of_Z n) = false.
Proof.
  assert (H : forall d, occurs "a" (NilEmpty.string_of_uint d) = false).
  { induction d; cbn; auto. }
  assert (H0 : forall d, occurs "a" (NilZero.string_of_uint d) = false).
  { intros d. destruct d; try apply H. reflexivity. }
  unfold str_of_Z, NilZero.string_of_int.
  destruct (Z.to_int n); [apply H0|]. cbn [occurs].
  destruct (ascii_dec "a" "-"); [discriminate | apply H0].
Qed.

Lemma existsb_map_ext {A} (f : A -> string) (g : A -> bool) (p : string)
    (l : list A) :
  Forall (fun x => contains p (f x) = g x) l ->
  existsb (contains p) (map f l) = existsb g l.
Proof.
  induction 1 as [|x l Hx _ IH]; [reflexivity|]. cbn. now rewrite Hx, IH.
Qed.

Lemma contains_encode_string (s : string) :
  contains "analysis" (encode_string s) = contains "analysis" (escape_string s).
Proof.
  unfold encode_string.
  rewrite (contains_after "analysis" QUOTE) by (try reflexivity; discriminate).
  now rewrite (contains_before "analysis" QUOTE) by (try reflexivity; discriminate).
Qed.

Lemma escape_plain (s : string) : plain s = true -> escape_string s = s.
Proof.
  induction s as [|c s IH]; [reflexivity|]. cbn [plain].
  intros H. apply andb_true_iff in H as [Hc Hs]. cbn [escape_string].
  unfold plain_char in Hc. cbv zeta in Hc.
  repeat (apply andb_true_iff in Hc as [Hc ?]).
  repeat match goal with
         | H : negb _ = true |- _ => apply negb_true_iff in H; apply N.eqb_neq in H
         end.
  apply N.leb_le in Hc. match goal with H : (_ <=? _)%N = true |- _ =>
    apply N.leb_le in H; rename H into Hhi end.
  cbv zeta. destruct (N.ltb_spec (N_of_ascii c) 128); [|lia].
  unfold escape_ascii. cbv zeta.
  repeat match goal with
         | |- context [(N_of_ascii c =? ?k)%N] =>
             destruct (N.eqb_spec (N_of_ascii c) k); [lia|]
         end.
  destruct (N.leb_spec 32 (N_of_ascii c)); [|lia].
  destruct (N.leb_spec (N_of_ascii c) 126); [|lia].
  cbn [andb]. rewrite append_cons, append_nil_l. now rewrite IH.
Qed.

(** X12.  The analysis flag of the parser is on exactly when the word
    "analysis" stands in a key or in a text value of the record, anywhere
    in it and in the form [json.dumps] writes them; numbers, booleans,
    [null] and the punctuation between the values never turn it on.  Plain
    text (printable ASCII without quote and backslash) is written as it is,
    so a plain name, id or comment that holds the word turns the flag on. *)
Theorem detect_analysis_exactly :
  (forall v, detect_analysis v = mentions_analysis v)
  /\ (forall s, plain s = true -> escape_string s = s).
Proof.
  split; [|exact escape_plain].
  unfold detect_analysis.
  induction v as [| b | n | s | l IH | o IH] using json_induction.
  - reflexivity.
  - now destruct b.
  - cbn [json_dumps mentions_analysis].
    apply contains_without_first, str_of_Z_no_letter.
  - cbn [json_dumps mentions_analysis]. apply contains_encode_string.
  - cbn [json_dumps mentions_analysis].
    rewrite (contains_after "analysis" "[") by (try reflexivity; discriminate).
    rewrite (contains_before "analysis" "]") by (try reflexivity; discriminate).
    rewrite (contains_join_sep "analysis" ", ") by (try reflexivity; discriminate).
    now apply existsb_map_ext.
  - cbn [json_dumps mentions_analysis].
    rewrite (contains_after "analysis" "{") by (try reflexivity; discriminate).
    rewrite (contains_before "analysis" "}") by (try reflexivity; discriminate).
    rewrite (contains_join_sep "analysis" ", ") by (try reflexivity; discriminate).
    apply existsb_map_ext.
    eapply Forall_impl; [exact IH|]. intros [k x] Hx. cbn [fst snd] in *.
    rewrite (contains_around "analysis" ": ") by (try reflexivity; discriminate).
    now rewrite contains_encode_string, Hx.
Qed.

(** * Further properties of the renderer *)

Lemma lookup_ending_cases (table : list (string * string)) (key : string) :
  (key ∈ (table.*1) /\ exists v, Game.lookup_ending table key = Ok v)
  \/ ((key ∉ (table.*1)) /\ Game.lookup_ending table key = Raise (KeyError key)).
Proof.
  induction table as [|[k v] table IH]; cbn.
  - right. split; [apply not_elem_of_nil | reflexivity].
  - destruct (String.eqb_spec key k) as [->|Hne].
    + left. split; [apply list_elem_of_here | eauto].
    + destruct IH as [[Hin Hv]|[Hout Hr]].
      * left. split; [now apply list_elem_of_further | exact Hv].
      * right. split; [|exact Hr]. intros Hin.
        apply elem_of_cons in Hin as [?|?]; congruence.
Qed.

Lemma game_ending_info_Raise (g : Game.t) (e : exception) :
  Game.game_ending_info g = Raise e <->
  Game.winner g <> None /\ (Game.status g ∉ known_statuses)
  /\ e = KeyError (Game.status g).
Proof.
  unfold Game.game_ending_info, known_statuses.
  destruct (Game.winner g) as [w|].
  - destruct (lookup_ending_cases Game.pretty_endings (Game.status g))
      as [[Hin [v Hv]]|[Hout Hr]].
    + rewrite Hv. destruct w; cbn; split; try discriminate;
        intros (_ & Hout & _); contradiction.
    + rewrite Hr. destruct w; cbn; (split; [intros [= <-]; auto | ]);
        intros (_ & _ & ->); reflexivity.
  - split; [discriminate|]. intros [H _]. congruence.
Qed.

(** X13.  Building the result line raises exactly when the game has a winner
    and its status is none of the five codes of the table, and the exception
    is then the [KeyError] of that status; without a winner it never raises. *)
Theorem result_line_raises_exactly (g : Game.t) (e : exception) :
  Game.game_ending_info g = Raise e <->
  Game.winner g <> None /\ (Game.status g ∉ known_statuses)
  /\ e = KeyError (Game.status g).
Proof. apply game_ending_info_Raise. Qed.


Lemma push_san_Some E (board : chess.Board E) san uci p :
  chess.parse_san E (chess.position board) san = Some (uci, p) ->
  chess.push_san board san = Ok (chess.make p (chess.move_stack board ++ [uci])%list).
Proof. unfold chess.push_san. now intros ->. Qed.

Lemma push_san_None E (board : chess.Board E) san :
  chess.parse_san E (chess.position board) san = None ->
  chess.push_san board san = Raise ValueError.
Proof. unfold chess.push_san. now intros ->. Qed.

Lemma replay_spec E (pairs : list (Move.t * option Move.t)) :
  forall board,
    Game.replay E board pairs =
    match replay_stack E (chess.position board) (Move.san <$> plies pairs) with
    | Some (ucis, q) => Ok (chess.make q (chess.move_stack board ++ ucis)%list)
    | None => Raise ValueError
    end.
Proof.
  induction pairs as [|[w b] pairs IH]; intros board.
  - cbn. rewrite app_nil_r. now destruct board.
  - cbn [Game.replay]. destruct b as [b|]; cbn [plies]; rewrite !fmap_cons;
      cbn [replay_stack].
    + destruct (chess.parse_san E (chess.position board) (Move.san w))
        as [[u1 p1]|] eqn:H1; [|now rewrite (push_san_None _ _ _ H1)].
      rewrite (push_san_Some _ _ _ _ _ H1), bind_Ok_l.
      destruct (chess.parse_san E p1 (Move.san b)) as [[u2 p2]|] eqn:H2.
      * rewrite (push_san_Some _ _ _ u2 p2) by exact H2.
        rewrite bind_Ok_l, IH. cbn [chess.position chess.move_stack].
        destruct (replay_stack E p2 _) as [[ucis q]|]; [|reflexivity].
        now rewrite <- !app_assoc.
      * rewrite push_san_None by exact H2. reflexivity.
    + destruct (chess.parse_san E (chess.position board) (Move.san w))
        as [[u1 p1]|] eqn:H1; [|now rewrite (push_san_None _ _ _ H1)].
      rewrite (push_san_Some _ _ _ _ _ H1), !bind_Ok_l, IH.
      cbn [chess.position chess.move_stack].
      destruct (replay_stack E p1 _) as [[ucis q]|]; [|reflexivity].
      now rewrite <- !app_assoc.
Qed.

Lemma replay_stack_length E (sans : list string) :
  forall p ucis q,
    replay_stack E p sans = Some (ucis, q) -> length ucis = length sans.
Proof.
  induction sans as [|san sans IH]; intros p ucis q H.
  - now injection H as <- _.
  - cbn [replay_stack] in H.
    destruct (chess.parse_san E p san) as [[u p1]|]; [|discriminate].
    destruct (replay_stack E p1 sans) as [[us q1]|] eqn:Hr; [|discriminate].
    injection H as <- _. cbn. now rewrite (IH _ _ _ Hr).
Qed.

(** X14.  The replay of the final position pushes the plies in the order
    they were played, white's and black's alike, each as the engine reads it
    against the position before it: when the engine reads them all, the
    board returned holds the last position and a stack with one move per
    ply; when it rejects one, the replay raises [ValueError]. *)
Theorem replay_is_ply_by_ply E (g : Game.t) :
  match replay_stack E (chess.from_fen E Game.start_positions)
          (Move.san <$> plies (Game.moves g)) with
  | Some (ucis, q) =>
      length ucis = length (plies (Game.moves g))
      /\ forall board diagram,
           Game.board_at_end E g = Ok (board, diagram) ->
           board = chess.make q ucis
  | None => Game.board_at_end E g = Raise ValueError
  end.
Proof.
  unfold Game.board_at_end. rewrite replay_spec. cbn [chess.new chess.position
    chess.move_stack].
  destruct (replay_stack E (chess.from_fen E Game.start_positions)
              (Move.san <$> plies (Game.moves g))) as [[ucis q]|] eqn:Hr;
    [|reflexivity].
  split.
  - rewrite (replay_stack_length _ _ _ _ _ Hr). now rewrite length_fmap.
  - intros board diagram H. rewrite bind_Ok_l in H. cbv zeta in H.
    peel H. now injection H as <- _.
Qed.

(** ** Lines and letters of the diagram *)

Lemma count_char_app (c : ascii) (a b : string) :
  count_char c (a +:+ b) = (count_char c a + count_char c b)%nat.
Proof.
  induction a as [|d a IH]; [reflexivity|]. rewrite append_cons. cbn [count_char].
  destruct (ascii_dec d c); rewrite IH; reflexivity.
Qed.

Lemma split_length (sep : ascii) (s : string) :
  length (split sep s) = S (count_char sep s).
Proof.
  induction s as [|c s IH]; [reflexivity|]. cbn [split count_char].
  destruct (ascii_dec c sep); [cbn; now rewrite IH|].
  destruct (split sep s); cbn in *; lia.
Qed.

Lemma count_char_replace (sep old : ascii) (new s : string) :
  old <> sep -> count_char sep new = 0%nat ->
  count_char sep (replace old new s) = count_char sep s.
Proof.
  intros Hne Hnew. induction s as [|c s IH]; [reflexivity|].
  cbn [replace]. rewrite count_char_app, IH. cbn [count_char].
  destruct (ascii_dec c old) as [->|Hc].
  - rewrite Hnew. now destruct (ascii_dec old sep).
  - cbn [count_char]. now destruct (ascii_dec c sep).
Qed.

Lemma unicode_symbols_lines (s : string) :
  length (split (ascii_of_nat 10) (Game.unicode_symbols s))
  = length (split (ascii_of_nat 10) s).
Proof.
  rewrite !split_length. f_equal. unfold Game.unicode_symbols. cbv zeta.
  repeat (rewrite count_char_replace; [|now compute|reflexivity]).
  reflexivity.
Qed.

Lemma occurs_app (c : ascii) (a b : string) :
  occurs c (a +:+ b) = occurs c a || occurs c b.
Proof.
  induction a as [|d a IH]; [reflexivity|]. rewrite append_cons. cbn [occurs].
  now destruct (ascii_dec c d).
Qed.

Lemma occurs_replace_same (old : ascii) (new s : string) :
  occurs old new = false -> occurs old (replace old new s) = false.
Proof.
  intros Hnew. induction s as [|c s IH]; [reflexivity|].
  cbn [replace]. rewrite occurs_app, IH, orb_false_r.
  destruct (ascii_dec c old) as [->|Hc]; [exact Hnew|].
  cbn [occurs]. destruct (ascii_dec old c); [congruence | reflexivity].
Qed.

Lemma occurs_replace_other (c old : ascii) (new s : string) :
  occurs c new = false -> occurs c s = false ->
  occurs c (replace old new s) = false.
Proof.
  intros Hnew. induction s as [|d s IH]; [reflexivity|].
  cbn [replace occurs]. destruct (ascii_dec c d) as [->|Hcd]; [discriminate|].
  intros Hs. rewrite occurs_app, (IH Hs), orb_false_r.
  destruct (ascii_dec d old); [exact Hnew|].
  cbn [occurs]. destruct (ascii_dec c d); [congruence | reflexivity].
Qed.

Lemma unicode_symbols_letters (s : string) (c : ascii) :
  occurs c piece_letters = true -> occurs c (Game.unicode_symbols s) = false.
Proof.
  unfold piece_letters. cbn [occurs]. intros H.
  unfold Game.unicode_symbols. cbv zeta.
  repeat match type of H with
         | (if ascii_dec c ?d then _ else _) = true =>
             destruct (ascii_dec c d) as [->|_];
             [clear H;
              repeat (first [ apply occurs_replace_same; reflexivity
                            | apply occurs_replace_other; [reflexivity|] ])
             |]
         end.
  discriminate H.
Qed.

(** X15.  In the diagram, once the symbols are put in, none of the twelve
    piece letters is left, whatever text the engine draws, and the text has
    as many lines as before. *)
Theorem unicode_symbols_replaces_letters :
  (forall s c, occurs c piece_letters = true ->
               occurs c (Game.unicode_symbols s) = false)
  /\ (forall s, length (split (ascii_of_nat 10) (Game.unicode_symbols s))
               = length (split (ascii_of_nat 10) s)).
Proof. split; [exact unicode_symbols_letters | exact unicode_symbols_lines]. Qed.

(** ** When the report is produced *)

Lemma plies_nonempty (pairs : list (Move.t * option Move.t)) :
  pairs <> [] -> plies pairs <> [].
Proof. destruct pairs as [|[w [b|]] pairs]; [congruence | discriminate..]. Qed.

Lemma plies_empty (pairs : list (Move.t * option Move.t)) :
  plies pairs = [] -> pairs = [].
Proof. destruct pairs as [|[w [b|]] pairs]; [reflexivity | discriminate..]. Qed.

Lemma board_at_end_after_replay E (g : Game.t) ucis q :
  replay_stack E (chess.from_fen E Game.start_positions)
    (Move.san <$> plies (Game.moves g)) = Some (ucis, q) ->
  ((length (split (ascii_of_nat 10) (chess.str E q)) < 5)%nat ->
   Game.board_at_end E g = Raise IndexError)
  /\ ((5 <= length (split (ascii_of_nat 10) (chess.str E q)))%nat ->
      exists diagram, Game.board_at_end E g = Ok (chess.make q ucis, diagram)).
Proof.
  intros Hr. unfold Game.board_at_end. rewrite replay_spec.
  cbn [chess.new chess.position chess.move_stack]. rewrite Hr, bind_Ok_l.
  cbv zeta. cbn [chess.position app].
  rewrite <- (unicode_symbols_lines (chess.str E q)).
  set (l := split _ (Game.unicode_symbols _)).
  unfold append_to_line.
  destruct (l !! 3%nat) as [l3|] eqn:H3.
  - rewrite bind_Ok_l.
    match goal with
    | |- context [(<[3%nat := ?x]> l) !! 4%nat] =>
        destruct ((<[3%nat := x]> l) !! 4%nat) as [l4|] eqn:H4
    end.
    + split; [|intros _; rewrite bind_Ok_l; eauto].
      apply lookup_lt_Some in H4. rewrite length_insert in H4. lia.
    + split; [reflexivity|].
      apply lookup_ge_None in H4. rewrite length_insert in H4. lia.
  - split; [reflexivity|]. apply lookup_ge_None in H3. lia.
Qed.

Lemma last_item_Raise {A} (l : list A) e : last_item l = Raise e -> l = [] /\ e = IndexError.
Proof.
  unfold last_item. destruct (last l) eqn:H; [discriminate|].
  intros [= <-]. split; [now apply last_None | reflexivity].
Qed.

(** X16.  The exceptions of the renderer.  When the report of a game whose
    integers are printable is not produced, the exception is one of four:
    [OverflowError], when a clock or an evaluation that the move table
    converts is beyond the floats; the [KeyError] of a status without
    phrase, for a game with a winner; the [ValueError] of the engine, which
    rejects one of the plies; and [IndexError], when the plies are read but
    the game has no move, or the diagram of the engine has fewer than five
    lines. *)
Theorem rendering_raises_only ts sh E (g : Game.t) (e : exception) :
  forallb printable (printed_integers g) = true ->
  Game.to_console ts sh E g = Raise e ->
  (e = OverflowError
   /\ existsb (row_overflows (Game.has_analysis g)) (Game.moves g) = true)
  \/ (e = KeyError (Game.status g) /\ Game.winner g <> None
      /\ (Game.status g ∉ known_statuses))
  \/ (e = ValueError
      /\ replay_stack E (chess.from_fen E Game.start_positions)
           (Move.san <$> plies (Game.moves g)) = None)
  \/ (e = IndexError
      /\ exists ucis q,
           replay_stack E (chess.from_fen E Game.start_positions)
             (Move.san <$> plies (Game.moves g)) = Some (ucis, q)
           /\ (Game.moves g = []
               \/ (length (split (ascii_of_nat 10) (chess.str E q)) < 5)%nat)).
Proof.
  intros _. unfold Game.to_console. cbv zeta. intros H.
  rewrite render_rows_cases in H.
  destruct (existsb (row_overflows (Game.has_analysis g)) (Game.moves g)) eqn:Hrows.
  { injection H as <-. left. split; reflexivity. }
  rewrite bind_Ok_l in H. right.
  destruct (Game.game_ending_info g) as [[[sw sb] ending]|e0] eqn:Hend.
  - rewrite bind_Ok_l in H. cbv beta iota in H. right.
    destruct (replay_stack E (chess.from_fen E Game.start_positions)
                (Move.san <$> plies (Game.moves g))) as [[ucis q]|] eqn:Hr.
    + right.
      destruct (board_at_end_after_replay E g ucis q Hr) as [Hshort Hlong].
      destruct (Nat.lt_ge_cases (length (split (ascii_of_nat 10) (chess.str E q))) 5)
        as [Hlt|Hge].
      * rewrite (Hshort Hlt) in H. injection H as <-. split; [reflexivity|]. eauto.
      * destruct (Hlong Hge) as [diagram Hboard].
        rewrite Hboard, bind_Ok_l in H. cbv beta iota in H.
        cbn [chess.move_stack] in H.
        destruct (last_item ucis) as [u|e1] eqn:Hlast; [discriminate|].
        apply last_item_Raise in Hlast as [-> ->].
        injection H as <-. split; [reflexivity|]. exists [], q. split; [reflexivity|].
        left. apply plies_empty.
        apply replay_stack_length in Hr. rewrite length_fmap in Hr.
        destruct (plies (Game.moves g)); [reflexivity | discriminate Hr].
    + left. unfold Game.board_at_end in H. rewrite replay_spec in H.
      cbn [chess.new chess.position] in H. rewrite Hr in H.
      injection H as <-. split; reflexivity.
  - injection H as <-. left.
    apply game_ending_info_Raise in Hend as (Hw & Hs & ->). repeat split; assumption.
Qed.

Lemma rendering_raises_only_witness :
  Game.to_console sample_timestr sample_timestr sample_engine game_left_by_black
  = Raise (KeyError "timeout")
  /\ ((KeyError "timeout" = OverflowError
       /\ existsb (row_overflows (Game.has_analysis game_left_by_black))
            (Game.moves game_left_by_black) = true)
      \/ (KeyError "timeout" = KeyError (Game.status game_left_by_black)
          /\ Game.winner game_left_by_black <> None
          /\ (Game.status game_left_by_black ∉ known_statuses))
      \/ (KeyError "timeout" = ValueError
          /\ replay_stack sample_engine
               (chess.from_fen sample_engine Game.start_positions)
               (Move.san <$> plies (Game.moves game_left_by_black)) = None)
      \/ (KeyError "timeout" = IndexError
          /\ exists ucis q,
               replay_stack sample_engine
                 (chess.from_fen sample_engine Game.start_positions)
                 (Move.san <$> plies (Game.moves game_left_by_black)) = Some (ucis, q)
               /\ (Game.moves game_left_by_black = []
                   \/ (length (split (ascii_of_nat 10)
                                 (chess.str sample_engine q)) < 5)%nat))).
Proof.
  split; [reflexivity|].
  exact (rendering_raises_only sample_timestr sample_timestr sample_engine
           game_left_by_black (KeyError "timeout") eq_refl eq_refl).
Defined.

(** X17.  When the report is produced.  For a game whose integers are
    printable, whose clocks and evaluations the move table converts are
    within the floats, that has no winner or whose status has a phrase, that
    has a move, whose plies the engine reads, and for which the engine draws
    a diagram of five lines or more, the renderer returns; the report ends
    with the address of the image of the last position the engine reached,
    marked with the last ply as the engine read it, and with the address of
    the game. *)
Theorem rendering_returns ts sh E (g : Game.t) ucis q :
  forallb printable (printed_integers g) = true ->
  existsb (row_overflows (Game.has_analysis g)) (Game.moves g) = false ->
  Game.winner g = None \/ Game.status g ∈ known_statuses ->
  Game.moves g <> [] ->
  replay_stack E (chess.from_fen E Game.start_positions)
    (Move.san <$> plies (Game.moves g)) = Some (ucis, q) ->
  (5 <= length (split (ascii_of_nat 10) (chess.str E q)))%nat ->
  exists pre u,
    last ucis = Some u
    /\ Game.to_console ts sh E g =
       Ok (pre +:+ "   GIF: https://lichess.org/export/fen.gif?fen="
           +:+ quote_plus (chess.board_fen E q) +:+ "&lastMove=" +:+ u +:+ NL
           +:+ NL +:+ "Game URL: https://lichess.org/" +:+ Game.id g +:+ NL +:+ NL).
Proof.
  intros _ Hrows Hstatus Hmoves Hr Hlines.
  destruct (Game.game_ending_info g) as [[[sw sb] ending]|e0] eqn:Hend.
  2:{ apply game_ending_info_Raise in Hend as (Hw & Hs & _).
      destruct Hstatus as [Hnone|Hin]; [now destruct Hw | now destruct Hs]. }
  destruct (board_at_end_after_replay E g ucis q Hr) as [_ Hlong].
  destruct (Hlong Hlines) as [diagram Hboard].
  destruct (last ucis) as [u|] eqn:Hlast.
  2:{ apply last_None in Hlast. subst ucis.
      apply replay_stack_length in Hr. rewrite length_fmap in Hr.
      destruct (plies (Game.moves g)) eqn:Hp; [|discriminate Hr].
      now apply plies_empty in Hp. }
  unfold Game.to_console. cbv zeta.
  rewrite render_rows_cases, Hrows, bind_Ok_l, Hend, bind_Ok_l. cbv beta iota.
  rewrite Hboard, bind_Ok_l. cbv beta iota.
  cbn [chess.move_stack chess.position]. unfold last_item. rewrite Hlast, bind_Ok_l.
  rewrite !append_assoc. eexists _, u. split; [reflexivity|]. f_equal.
  do 13 (apply prefix_step). exact (eq_sym (append_nil_l _)).
Qed.

Lemma rendering_returns_witness :
  exists pre u,
    last ["e4"] = Some u
    /\ Game.to_console sample_timestr sample_timestr sample_engine game_one_ply_draw =
       Ok (pre +:+ "   GIF: https://lichess.org/export/fen.gif?fen="
           +:+ quote_plus (chess.board_fen sample_engine ["e4"]) +:+ "&lastMove="
           +:+ u +:+ NL
           +:+ NL +:+ "Game URL: https://lichess.org/" +:+ Game.id game_one_ply_draw
           +:+ NL +:+ NL).
Proof.
  apply (rendering_returns sample_timestr sample_timestr sample_engine
           game_one_ply_draw ["e4"] ["e4"]).
  - reflexivity.
  - reflexivity.
  - left. reflexivity.
  - discriminate.
  - reflexivity.
  - vm_compute. lia.
Defined.

(** ** The command line *)

Lemma parsed_record_truthy (r : json) (g : Game.t) :
  create_game_from_json r = Ok g -> truthy r = true.
Proof.
  unfold create_game_from_json. cbv zeta. intros H.
  apply bind_Ok in H as (ps & Hps & _).
  destruct r as [| | | | |o]; try discriminate Hps.
  destruct o; [discriminate Hps | reflexivity].
Qed.

(** X18.  A record that parses is rendered: the command line prints the
    blank line, and then the report when the renderer returns one; when the
    renderer raises, the blank line is all it has printed, and the exception
    ends the run.  No record that parses is taken for a failure to reach the
    service. *)
Theorem command_line_of_parsed_record api ts sh E
    (argv : list string) (id : string) (v : json) (g : Game.t) :
  argv !! 1%nat = Some id ->
  api id = ApiRecord v ->
  create_game_from_json v = Ok g ->
  main api ts sh E argv =
  match Game.to_console ts sh E g with
  | Ok report => ([""; report], Finished)
  | Raise e => ([""], Uncaught e)
  end.
Proof.
  intros Hid Hapi Hparse. unfold main, get_game_object_from_lichess.
  rewrite Hid, Hapi. cbn [not_truthy].
  rewrite (parsed_record_truthy v g Hparse). cbn [negb]. rewrite Hparse.
  reflexivity.
Qed.

Lemma command_line_of_parsed_record_witness :
  exists g report,
    create_game_from_json record_three_plies = Ok g
    /\ Game.to_console sample_timestr sample_timestr sample_engine g = Ok report
    /\ main sample_api sample_timestr sample_timestr sample_engine
         ["game_exporter.py"; "q7ZvsdUF"] = ([""; report], Finished).
Proof.
  eexists _, _. split; [reflexivity|]. split; [vm_compute; reflexivity|].
  exact (command_line_of_parsed_record sample_api sample_timestr sample_timestr
           sample_engine ["game_exporter.py"; "q7ZvsdUF"] "q7ZvsdUF"
           record_three_plies _ eq_refl eq_refl eq_refl).
Defined.

(** X19.  How a run of the command line ends.  It ends normally only after
    printing a blank line and the report of the game parsed from the record
    the service gave; it exits with 0 only when no identifier was given, and
    with -1 only when the connection failed or the record counts as false (no
    record, or an empty one), each time after one line of text; an exception
    of the parser leaves nothing printed, one of the renderer the blank line
    alone; and an error of the service other than [ConnectionError] is not
    caught. *)
Theorem command_line_endings api ts sh E (argv : list string) :
  let '(printed, how) := main api ts sh E argv in
  match how with
  | Finished =>
      exists id v g report,
        argv !! 1%nat = Some id /\ api id = ApiRecord v
        /\ create_game_from_json v = Ok g
        /\ Game.to_console ts sh E g = Ok report
        /\ printed = [""; report]
  | SysExit code =>
      (code = 0 /\ (length argv <= 1)%nat
       /\ printed = ["Please supply the Lichess game ID as argument."])
      \/ (code = -1
          /\ printed = ["ERROR: Could not contact Lichess! Stopping..."]
          /\ exists id,
               argv !! 1%nat = Some id
               /\ (api id = ApiConnectionError
                   \/ exists v, api id = ApiRecord v /\ truthy v = false))
  | Uncaught e =>
      exists id v,
        argv !! 1%nat = Some id /\ api id = ApiRecord v /\ truthy v = true
        /\ ((printed = [] /\ create_game_from_json v = Raise e)
            \/ (printed = [""]
                /\ exists g, create_game_from_json v = Ok g
                             /\ Game.to_console ts sh E g = Raise e))
  | UncaughtApiError =>
      printed = [] /\ exists id, argv !! 1%nat = Some id /\ api id = ApiOtherError
  end.
Proof.
  unfold main, get_game_object_from_lichess.
  destruct (argv !! 1%nat) as [id|] eqn:Hid.
  - destruct (api id) as [v| |] eqn:Hapi; cbn [not_truthy negb].
    + destruct (truthy v) eqn:Htruthy; cbn [negb].
      * destruct (create_game_from_json v) as [g|e] eqn:Hparse.
        -- destruct (Game.to_console ts sh E g) as [report|e] eqn:Hrender.
           ++ exists id, v, g, report. auto.
           ++ exists id, v. repeat split; try assumption. right. eauto.
        -- exists id, v. repeat split; try assumption. left. auto.
      * right. repeat split. exists id. split; [reflexivity|]. right. eauto.
    + right. repeat split. exists id. auto.
    + split; [reflexivity|]. exists id. auto.
  - left. repeat split. apply lookup_ge_None in Hid. lia.
Qed.

(** ** Mandatory structure and defaults *)







